(** * dnsblast: a shallow embedding of [src/dnsblast/dns-blast.go]

    The development follows the layout of the Go file: the constants, the
    configuration records, nameserver resolution ([getNameservers]), the two
    single-query executors ([SimpleQuery], [SimpleQueryWithNoResponse]), the
    entry point ([Start]) and the per-nameserver round loop
    ([ExecuteStressTest]).  Calls into the Go runtime and into third-party
    packages (net, time, sync, miekg/dns, utls) are modelled by the small
    interfaces of [Module GoLib]; everything else is translated from the
    source line by line. *)

From Stdlib Require Import ZArith List String Ascii Bool Lia DecimalString.
Import ListNotations.
Open Scope string_scope.
Open Scope Z_scope.

(** ** The pieces of the Go runtime and of the libraries the file calls *)

Module GoLib.

(** A Go [error] value is represented by its message; [None] is [nil]. *)
Definition error := string.

(** [strconv.Itoa]: decimal rendering of an [int]. *)
Definition Itoa (i : Z) : string := NilZero.string_of_int (Z.to_int i).

(** [strings.IndexByte(s, c) >= 0]. *)
Fixpoint containsByte (c : ascii) (s : string) : bool :=
  match s with
  | EmptyString => false
  | String a rest => if Ascii.eqb a c then true else containsByte c rest
  end.

(** [net.JoinHostPort]: a host containing a colon is taken for a literal
    IPv6 address and bracketed. *)
Definition JoinHostPort (host port : string) : string :=
  if containsByte ":"%char host
  then "[" ++ host ++ "]:" ++ port
  else host ++ ":" ++ port.

(** [net.NS]. *)
Record NS := { Host : string }.

(** The outcome of [net.LookupNS]: Go returns both a slice and an error, and
    the two are independent (a partial answer may come with an error). *)
Definition LookupResult := (list NS * option error)%type.

(** [time.Duration] is a count of nanoseconds. *)
Definition Duration := Z.
Definition Millisecond : Duration := 1000000.
Definition Second : Duration := 1000 * Millisecond.

(** [time.NewTicker(d)] panics unless [d] is positive. *)
Definition NewTicker_panics (d : Duration) : bool := d <=? 0.
Definition NewTicker_panic_message : string := "non-positive interval for NewTicker".

(** [sync.WaitGroup.Add(delta)] panics when the counter would go negative. *)
Definition WaitGroup_Add_panics (counter delta : Z) : bool := counter + delta <? 0.
Definition WaitGroup_panic_message : string := "sync: negative WaitGroup counter".

End GoLib.

Import GoLib.

(** ** Constants and records of the package *)

Definition DefaultDNSPort : Z := 53.
Definition DefaultDNSOverTLSPort : Z := 853.

Definition UDPProtoName : string := "udp".
Definition TCPProtoName : string := "tcp".
Definition TCPTLSProtoName : string := "tcp-tls".

Record Config := {
  RootDomain : string;
  Protocol : string;
  SeedDomains : list string;
  Delay : Duration;
  ParallelQueries : Z
}.

Record StressTestParameters := {
  stp_Delay : Duration;
  stp_ParallelQueries : Z;
  stp_Protocol : string;
  stp_SeedDomains : list string
}.

Record QueryParameters := {
  HostAndPort : string;
  QName : string;
  QType : Z
}.

(** [dns.TypeA]. *)
Definition TypeA : Z := 1.

(** ** Nameserver resolution *)

(** [getNameservers], with the result of [net.LookupNS rootDomain] passed in
    as [lookup].  The result is the Go pair [(res, err)]. *)
Definition getNameservers (lookup : string -> LookupResult)
    (rootDomain protocol : string) : list string * option error :=
  let port := if String.eqb protocol TCPTLSProtoName
              then DefaultDNSOverTLSPort else DefaultDNSPort in
  let '(nameservers, err) := lookup rootDomain in
  match err with
  | Some e => ([], Some e)
  | None =>
      (fold_left (fun res nameserver =>
                    app res [JoinHostPort (Host nameserver) (Itoa port)])
                 nameservers [],
       None)
  end.

(** ** The DNS client and the wire

    A query talks to the network through [dns.Client].  The network is an
    oracle [NetEnv]; what a query does on the wire is recorded as a list of
    events, threaded through the calls by a state monad. *)

Record TLSConfig := { InsecureSkipVerify : bool }.

Record Client := {
  Dialer_Timeout : Duration;
  DialTimeout : Duration;
  WriteTimeout : Duration;
  ReadTimeout : Duration;
  Net : string;
  ClientTLSConfig : option TLSConfig
}.

(** [dns.Fqdn] is applied to the name, not evaluated here. *)
Inductive DomainName := Fqdn (s : string).

(** [new(dns.Msg).SetQuestion(name, qtype)]. *)
Record Msg := { Question_Name : DomainName; Question_Qtype : Z }.

Definition SetQuestion (name : DomainName) (qtype : Z) : Msg :=
  {| Question_Name := name; Question_Qtype := qtype |}.

(** [*dns.Conn]: the connection [co_id] as dialed, and whether [co.Conn] has
    been replaced by the [utls.UClient] wrapper of lines 179 and 203.  That
    wrapper is built around [co] itself, not around the socket [co.Conn]
    held before: afterwards [co.Conn] is the wrapper and the wrapper's
    underlying connection is [co], a cycle with the dialed socket no longer
    on it. *)
Record Conn := { co_id : nat; co_cyclic : bool }.

Inductive LogEntry :=
| LogIgniting (config : Config)
| LogResolved (rootDomain : string) (nameservers : list string)
| LogFinishedWithError (nameserver : string) (err : error)
| LogStillBlasting (server : string)
| LogCanceled
| LogDialFailed (host : string) (err : error)
| LogQueryFailed (err : error).

Inductive Event :=
| EvDial (address : string) (network : string) (co : nat)
| EvDialFailed (address : string) (err : error)
| EvUClient (co : nat)
| EvExchange (co : nat) (randomized : bool) (m : Msg) (err : option error)
| EvClose (co : nat)
| EvLog (entry : LogEntry).

(** The network as seen by one query: the outcome of its k-th dial, and the
    round-trip time and error of an exchange on a connection.  A timeout is
    one of the errors. *)
Record NetEnv := {
  dial_outcome : nat -> option error;
  exchange_outcome : nat -> Duration * option error
}.

Record Wire := { next_conn : nat; events : list Event }.

Definition M (A : Type) : Type := Wire -> A * Wire.

Definition ret {A} (a : A) : M A := fun w => (a, w).

Definition bind {A B} (m : M A) (k : A -> M B) : M B :=
  fun w => let '(a, w') := m w in k a w'.

Notation "x <- m ;; k" := (bind m (fun x => k))
  (at level 61, m at next level, right associativity).
Notation "m ;;; k" := (bind m (fun _ => k))
  (at level 61, right associativity).

Definition emit (e : Event) : M unit :=
  fun w => (tt, {| next_conn := next_conn w; events := app (events w) [e] |}).

Definition logPrintf (entry : LogEntry) : M unit := emit (EvLog entry).

(** A call either finishes or ends in a fatal error of the Go runtime, which
    kills the process: no deferred call runs and no [recover] sees it. *)
Inductive Run (A : Type) :=
| Finished (a : A)
| Fatal (reason : string).

Arguments Finished {A} a.
Arguments Fatal {A} reason.

Definition bindR {A B} (m : M (Run A)) (k : A -> M (Run B)) : M (Run B) :=
  fun w =>
    let '(r, w') := m w in
    match r with
    | Finished a => k a w'
    | Fatal reason => (Fatal reason, w')
    end.

Notation "x <-! m ;; k" := (bindR m (fun x => k))
  (at level 61, m at next level, right associativity).

Definition stack_overflow : string := "stack overflow".

(** [dns.Client.Dial]: a fresh connection or an error. *)
Definition Dial (env : NetEnv) (c : Client) (address : string) : M (Conn + error) :=
  fun w =>
    let k := next_conn w in
    match dial_outcome env k with
    | Some e =>
        (inr e, {| next_conn := S k; events := app (events w) [EvDialFailed address e] |})
    | None =>
        (inl {| co_id := k; co_cyclic := false |},
         {| next_conn := S k; events := app (events w) [EvDial address (Net c) k] |})
    end.

(** [co.Conn = utls.UClient(co, &utls.Config{...}, utls.HelloRandomized)]:
    the call is handed [co], so the wrapper stored into [co.Conn] wraps [co]
    itself. *)
Definition UClient (co : Conn) : M Conn :=
  emit (EvUClient (co_id co)) ;;;
  ret {| co_id := co_id co; co_cyclic := true |}.

(** [co.Close()].  On a cyclic [co] the call goes round the cycle and comes
    back with an error; the dialed socket is not on the cycle and stays
    open. *)
Definition Close (co : Conn) : M unit :=
  if co_cyclic co then ret tt else emit (EvClose (co_id co)).

(** [dns.Client.ExchangeWithConn]: the exchange runs on [co].  On a cyclic
    [co] the first call through [co.Conn] recurses without end, and the
    goroutine's stack overflows before anything is sent. *)
Definition ExchangeWithConn (env : NetEnv) (c : Client) (m : Msg) (co : Conn)
    : M (Run (Duration * option error)) :=
  if co_cyclic co then ret (Fatal stack_overflow)
  else
    let r := exchange_outcome env (co_id co) in
    emit (EvExchange (co_id co) false m (snd r)) ;;;
    ret (Finished r).

(** [dns.Client.Exchange]: it is given an address, so it
    dials a connection of its own, exchanges on it and closes it. *)
Definition Exchange (env : NetEnv) (c : Client) (m : Msg) (address : string)
    : M (Run (Duration * option error)) :=
  d <- Dial env c address ;;
  match d with
  | inr e => ret (Finished (0, Some e))
  | inl co =>
      r <-! ExchangeWithConn env c m co ;;
      Close co ;;;
      ret (Finished r)
  end.

(** ** The two single-query executors *)

Record Response := {
  WithErr : bool;
  Err : option error;
  Latency : Duration
}.

Definition isErr (e : option error) : bool :=
  match e with Some _ => true | None => false end.

Definition SimpleQuery (env : NetEnv) (sharedDNSClient : Client)
    (parameters : QueryParameters) : M (Run Response) :=
  let question := SetQuestion (Fqdn (QName parameters)) (QType parameters) in
  d <- Dial env sharedDNSClient (HostAndPort parameters) ;;
  match d with
  | inr err =>
      ret (Finished {| WithErr := true; Err := Some err; Latency := 0 |})
  | inl co =>
      co <- (if String.eqb (Net sharedDNSClient) TCPTLSProtoName
             then UClient co else ret co) ;;
      r <-! ExchangeWithConn env sharedDNSClient question co ;;
      Close co ;;;
      ret (Finished {| WithErr := isErr (snd r); Err := snd r; Latency := fst r |})
  end.

Definition SimpleQueryWithNoResponse (env : NetEnv) (sharedDNSClient : Client)
    (parameters : QueryParameters) : M (Run unit) :=
  let question := SetQuestion (Fqdn (QName parameters)) (QType parameters) in
  d <- Dial env sharedDNSClient (HostAndPort parameters) ;;
  match d with
  | inr err =>
      logPrintf (LogDialFailed (HostAndPort parameters) err) ;;;
      ret (Finished tt)
  | inl co =>
      co <- (if String.eqb (Net sharedDNSClient) TCPTLSProtoName
             then UClient co else ret co) ;;
      r <-! Exchange env sharedDNSClient question (HostAndPort parameters) ;;
      match snd r with
      | Some err => logPrintf (LogQueryFailed err) ;;; Close co ;;; ret (Finished tt)
      | None => Close co ;;; ret (Finished tt)
      end
  end.

Definition dialTimeout : Duration := 1 * Second.
Definition writeTimeout : Duration := 500 * Millisecond.
Definition readTimeout : Duration := 300 * Millisecond.

Definition newDefaultDNSClient (proto : string) : Client :=
  {| Dialer_Timeout := dialTimeout;
     DialTimeout := dialTimeout;
     WriteTimeout := writeTimeout;
     ReadTimeout := readTimeout;
     Net := proto;
     ClientTLSConfig :=
       if String.eqb proto TCPTLSProtoName
       then Some {| InsecureSkipVerify := true |} else None |}.

Definition wire0 : Wire := {| next_conn := 0; events := [] |}.

(** ** Panics and the recovery boundary *)

(** Modelled from the spec: [utils.PanicHandler] belongs to the package
    [src/utils], which is not among the sources at hand.  The spec describes
    it as the supervised-task facility that "wraps every concurrent task
    boundary, catches unexpected failures, logs them, and allows sibling
    tasks/the process to continue".  A function that defers it therefore
    ends a panicking body with an ordinary return of its zero results;
    [Recovered] records that this happened and with which panic value. *)
Inductive Outcome :=
| Returned (err : option error)
| Recovered (panic : string).

(** What the caller of the function receives. *)
Definition returned_error (o : Outcome) : option error :=
  match o with
  | Returned err => err
  | Recovered _ => None
  end.

(** ** The per-nameserver round loop

    [ExecuteStressTest] runs concurrently with the query goroutines it
    spawns, with the ticker and with whoever cancels the context, so it is
    given as a transition system.  A [State] holds the variables of the
    function under their source names; [Label] is the program point. *)

Inductive Label :=
| AtEntry                  (* lines 92-109: var block, client, generator *)
| AtRange                  (* line 115: receive a name, store it in QName *)
| AtKeepAlive              (* lines 116-121 *)
| AtCheckCtx               (* lines 123-129 *)
| AtAdd                    (* line 131 *)
| AtSpawn (i : Z)          (* lines 132-138, with the loop variable *)
| AtWait                   (* line 139 *)
| AtPace                   (* lines 141-147 *)
| Exited (o : Outcome).

Inductive TaskLabel :=
| TaskQuery                (* line 135 *)
| TaskDone                 (* line 136 *)
| TaskExited
| TaskRecovered (panic : string).

(** A query goroutine.  The closure captures the variable [reusableQuery],
    a pointer: [t_parameters] is that pointer, not a copy of the struct.
    [t_round] and [t_seen] are bookkeeping: the round that spawned the task
    and the name it found behind the pointer when it ran its query. *)
Record Task := {
  t_round : nat;
  t_parameters : nat;
  t_pc : TaskLabel;
  t_seen : option string
}.

Record State := {
  pc : Label;
  round : nat;
  heap : list QueryParameters;
  reusableQuery : nat;
  keepAliveCounter : Z;
  awaitGroup : Z;
  tickReady : bool;
  ctxDone : bool;
  tasks : list Task;
  wire : Wire;
  heartbeats : list nat;
  writes : list (nat * nat * string)
}.

Definition keepAliveReminder : Z := 256.

(** The select at lines 141-147 picks among the ready cases; when both are
    ready the Go runtime picks either, [Choice] says which. *)
Inductive Choice := PickDone | PickTick.

Inductive Action :=
| AWorker (c : Choice)
| ATask (i : nat) (env : NetEnv)
| ATaskPanic (i : nat) (panic : string)
| ACancel
| ATick.

Definition set_pc (l : Label) (s : State) : State :=
  {| pc := l; round := round s; heap := heap s; reusableQuery := reusableQuery s;
     keepAliveCounter := keepAliveCounter s; awaitGroup := awaitGroup s;
     tickReady := tickReady s; ctxDone := ctxDone s; tasks := tasks s;
     wire := wire s; heartbeats := heartbeats s; writes := writes s |}.

Definition set_keepAliveCounter (c : Z) (s : State) : State :=
  {| pc := pc s; round := round s; heap := heap s; reusableQuery := reusableQuery s;
     keepAliveCounter := c; awaitGroup := awaitGroup s;
     tickReady := tickReady s; ctxDone := ctxDone s; tasks := tasks s;
     wire := wire s; heartbeats := heartbeats s; writes := writes s |}.

Definition set_awaitGroup (c : Z) (s : State) : State :=
  {| pc := pc s; round := round s; heap := heap s; reusableQuery := reusableQuery s;
     keepAliveCounter := keepAliveCounter s; awaitGroup := c;
     tickReady := tickReady s; ctxDone := ctxDone s; tasks := tasks s;
     wire := wire s; heartbeats := heartbeats s; writes := writes s |}.

Definition set_tickReady (b : bool) (s : State) : State :=
  {| pc := pc s; round := round s; heap := heap s; reusableQuery := reusableQuery s;
     keepAliveCounter := keepAliveCounter s; awaitGroup := awaitGroup s;
     tickReady := b; ctxDone := ctxDone s; tasks := tasks s;
     wire := wire s; heartbeats := heartbeats s; writes := writes s |}.

Definition set_ctxDone (b : bool) (s : State) : State :=
  {| pc := pc s; round := round s; heap := heap s; reusableQuery := reusableQuery s;
     keepAliveCounter := keepAliveCounter s; awaitGroup := awaitGroup s;
     tickReady := tickReady s; ctxDone := b; tasks := tasks s;
     wire := wire s; heartbeats := heartbeats s; writes := writes s |}.

Definition set_tasks (ts : list Task) (s : State) : State :=
  {| pc := pc s; round := round s; heap := heap s; reusableQuery := reusableQuery s;
     keepAliveCounter := keepAliveCounter s; awaitGroup := awaitGroup s;
     tickReady := tickReady s; ctxDone := ctxDone s; tasks := ts;
     wire := wire s; heartbeats := heartbeats s; writes := writes s |}.

Definition set_wire (w : Wire) (s : State) : State :=
  {| pc := pc s; round := round s; heap := heap s; reusableQuery := reusableQuery s;
     keepAliveCounter := keepAliveCounter s; awaitGroup := awaitGroup s;
     tickReady := tickReady s; ctxDone := ctxDone s; tasks := tasks s;
     wire := w; heartbeats := heartbeats s; writes := writes s |}.

Definition set_round (r : nat) (s : State) : State :=
  {| pc := pc s; round := r; heap := heap s; reusableQuery := reusableQuery s;
     keepAliveCounter := keepAliveCounter s; awaitGroup := awaitGroup s;
     tickReady := tickReady s; ctxDone := ctxDone s; tasks := tasks s;
     wire := wire s; heartbeats := heartbeats s; writes := writes s |}.

Definition add_heartbeat (s : State) : State :=
  {| pc := pc s; round := round s; heap := heap s; reusableQuery := reusableQuery s;
     keepAliveCounter := keepAliveCounter s; awaitGroup := awaitGroup s;
     tickReady := tickReady s; ctxDone := ctxDone s; tasks := tasks s;
     wire := wire s; heartbeats := app (heartbeats s) [round s]; writes := writes s |}.

Definition log (entry : LogEntry) (s : State) : State :=
  set_wire (snd (logPrintf entry (wire s))) s.

(** In-place update of one cell of a list; out of range it does nothing. *)
Fixpoint update {A} (i : nat) (x : A) (l : list A) : list A :=
  match l, i with
  | [], _ => []
  | _ :: rest, O => x :: rest
  | y :: rest, S j => y :: update j x rest
  end.

Definition with_QName (name : string) (q : QueryParameters) : QueryParameters :=
  {| HostAndPort := HostAndPort q; QName := name; QType := QType q |}.

(** [reusableQuery.QName = name]: a store through the pointer. *)
Definition store_QName (name : string) (s : State) : State :=
  match nth_error (heap s) (reusableQuery s) with
  | None => s
  | Some q =>
      {| pc := pc s; round := round s;
         heap := update (reusableQuery s) (with_QName name q) (heap s);
         reusableQuery := reusableQuery s;
         keepAliveCounter := keepAliveCounter s; awaitGroup := awaitGroup s;
         tickReady := tickReady s; ctxDone := ctxDone s; tasks := tasks s;
         wire := wire s; heartbeats := heartbeats s;
         writes := app (writes s) [(round s, reusableQuery s, name)] |}
  end.

Definition with_t_pc (l : TaskLabel) (t : Task) : Task :=
  {| t_round := t_round t; t_parameters := t_parameters t; t_pc := l; t_seen := t_seen t |}.

Definition with_t_seen (name : string) (t : Task) : Task :=
  {| t_round := t_round t; t_parameters := t_parameters t; t_pc := t_pc t;
     t_seen := Some name |}.

(** Lines 116-121, on the counter alone: whether to log, and the new value. *)
Definition keepAlive (keepAliveCounter : Z) : bool * Z :=
  if keepAliveCounter =? keepAliveReminder
  then (true, 0)
  else (false, keepAliveCounter + 1).

Section ExecuteStressTest.

Variable nameserver : string.
Variable parameters : StressTestParameters.

(** Modelled from the spec: [NewDistinctHeavyHitterGenerator] is defined in
    another file of the package, which is not among the sources at hand.
    Per the spec its construction either fails with a configuration error or
    gives "a cancellable lazy sequence of produced names: infinite, not
    restartable, read by exactly one consumer".  It is taken as a parameter:
    the error, or the k-th name of the sequence. *)
Variable NewDistinctHeavyHitterGenerator : list string -> (nat -> string) + error.

Definition sharedDNSClient : Client := newDefaultDNSClient (stp_Protocol parameters).

Definition dhhGenerator_Next (k : nat) : string :=
  match NewDistinctHeavyHitterGenerator (stp_SeedDomains parameters) with
  | inl names => names k
  | inr _ => ""
  end.

(** The state on entry: [reusableQuery] points to a fresh struct
    (lines 94-98), the counters are zero. *)
Definition entry : State :=
  {| pc := AtEntry; round := 0%nat;
     heap := [ {| HostAndPort := nameserver; QName := ""; QType := TypeA |} ];
     reusableQuery := 0%nat;
     keepAliveCounter := 0; awaitGroup := 0;
     tickReady := false; ctxDone := false; tasks := [];
     wire := wire0; heartbeats := []; writes := [] |}.

(** One step of the function body itself. *)
Definition step_worker (c : Choice) (s : State) : option State :=
  match pc s with
  | AtEntry =>
      if NewTicker_panics (stp_Delay parameters)
      then Some (set_pc (Exited (Recovered NewTicker_panic_message)) s)
      else match NewDistinctHeavyHitterGenerator (stp_SeedDomains parameters) with
           | inr err =>
               Some (set_pc (Exited (Returned (Some
                 ("failed to bootstrap the distinct heavy hitter generator: " ++ err)))) s)
           | inl _ => Some (set_pc AtRange s)
           end
  | AtRange =>
      Some (set_pc AtKeepAlive (store_QName (dhhGenerator_Next (round s)) s))
  | AtKeepAlive =>
      let '(remind, counter) := keepAlive (keepAliveCounter s) in
      let s := if remind
               then add_heartbeat (log (LogStillBlasting
                      (match nth_error (heap s) (reusableQuery s) with
                       | Some q => HostAndPort q
                       | None => ""
                       end)) s)
               else s in
      Some (set_pc AtCheckCtx (set_keepAliveCounter counter s))
  | AtCheckCtx =>
      if ctxDone s
      then Some (set_pc (Exited (Returned None)) (log LogCanceled s))
      else Some (set_pc AtAdd s)
  | AtAdd =>
      if WaitGroup_Add_panics (awaitGroup s) (stp_ParallelQueries parameters)
      then Some (set_pc (Exited (Recovered WaitGroup_panic_message)) s)
      else Some (set_pc (AtSpawn 0)
                   (set_awaitGroup (awaitGroup s + stp_ParallelQueries parameters) s))
  | AtSpawn i =>
      if i <? stp_ParallelQueries parameters
      then Some (set_pc (AtSpawn (i + 1))
                   (set_tasks (app (tasks s)
                      [ {| t_round := round s; t_parameters := reusableQuery s;
                           t_pc := TaskQuery; t_seen := None |} ]) s))
      else Some (set_pc AtWait s)
  | AtWait =>
      if awaitGroup s =? 0 then Some (set_pc AtPace s) else None
  | AtPace =>
      let done := Some (set_pc (Exited (Returned None)) (log LogCanceled s)) in
      let tick := Some (set_pc AtRange (set_round (S (round s)) (set_tickReady false s))) in
      match ctxDone s, tickReady s with
      | true, true => match c with PickDone => done | PickTick => tick end
      | true, false => done
      | false, true => tick
      | false, false => None
      end
  | Exited _ => None
  end.

(** One step of the i-th query goroutine (lines 133-137).  The query of
    line 135 always finishes (its exchange runs on a connection that
    [Exchange] dialed for itself); what the step keeps of it is the wire. *)
Definition step_task (i : nat) (env : NetEnv) (s : State) : option State :=
  match nth_error (tasks s) i with
  | None => None
  | Some t =>
      match t_pc t with
      | TaskQuery =>
          match nth_error (heap s) (t_parameters t) with
          | None => None
          | Some q =>
              let w := snd (SimpleQueryWithNoResponse env sharedDNSClient q (wire s)) in
              Some (set_wire w
                      (set_tasks (update i (with_t_pc TaskDone (with_t_seen (QName q) t))
                                         (tasks s)) s))
          end
      | TaskDone =>
          Some (set_awaitGroup (awaitGroup s - 1)
                  (set_tasks (update i (with_t_pc TaskExited t) (tasks s)) s))
      | TaskExited => None
      | TaskRecovered _ => None
      end
  end.

(** An unexpected failure inside the query: the deferred handler of line 134
    catches it, and line 136 is never reached. *)
Definition step_task_panic (i : nat) (panic : string) (s : State) : option State :=
  match nth_error (tasks s) i with
  | None => None
  | Some t =>
      match t_pc t with
      | TaskQuery =>
          Some (set_tasks (update i (with_t_pc (TaskRecovered panic) t) (tasks s)) s)
      | _ => None
      end
  end.

Definition exec (a : Action) (s : State) : option State :=
  match a with
  | AWorker c => step_worker c s
  | ATask i env => step_task i env s
  | ATaskPanic i panic => step_task_panic i panic s
  | ACancel => Some (set_ctxDone true s)
  | ATick =>
      match pc s with
      | AtEntry => None
      | Exited _ => None
      | _ => Some (set_tickReady true s)
      end
  end.

Fixpoint run (schedule : list Action) (s : State) : option State :=
  match schedule with
  | [] => Some s
  | a :: rest =>
      match exec a s with
      | Some s' => run rest s'
      | None => None
      end
  end.

Definition reachable (s : State) : Prop :=
  exists schedule, run schedule entry = Some s.

End ExecuteStressTest.

(** ** The entry point *)

(** A [go] statement of [Start]: the goroutine is handed its arguments and
    [Start] goes on; the goroutine has not run yet. *)
Record Goroutine := {
  go_nameserver : string;
  go_parameters : StressTestParameters
}.

(** [Start]: what the caller receives, the goroutines spawned, and the log.
    [lookup] stands for [net.LookupNS]. *)
Definition Start (lookup : string -> LookupResult) (config : Config)
    : Outcome * list Goroutine * list LogEntry :=
  let log1 := [LogIgniting config] in
  let '(nameservers, err) :=
    getNameservers lookup (RootDomain config) (Protocol config) in
  match err with
  | Some e =>
      (Returned (Some ("failed to resolve nameservers for the root domain [rootDomain="
                       ++ RootDomain config ++ "]: " ++ e)),
       [], log1)
  | None =>
      let log2 := app log1 [LogResolved (RootDomain config) nameservers] in
      let stressTestParameters :=
        {| stp_Delay := Delay config;
           stp_ParallelQueries := ParallelQueries config;
           stp_Protocol := Protocol config;
           stp_SeedDomains := SeedDomains config |} in
      (Returned None,
       map (fun nameserver =>
              {| go_nameserver := nameserver; go_parameters := stressTestParameters |})
           nameservers,
       log2)
  end.

(** The state in which a spawned goroutine begins [ExecuteStressTest]. *)
Definition goroutine_entry (g : Goroutine) : State := entry (go_nameserver g).

(** Lines 66-71: what the goroutine does with the result of the worker. *)
Definition goroutine_epilogue (g : Goroutine) (o : Outcome) : list LogEntry :=
  match returned_error o with
  | Some err => [LogFinishedWithError (go_nameserver g) err]
  | None => []
  end.

(** ** Pacing in time

    [nextLoopTicker] is created once, on entry, with period [Delay]; it
    fires at [created + k * period] for k = 1, 2, ...  Its channel holds at
    most one tick: a tick that finds the channel full is dropped.  Instants
    are in nanoseconds. *)

Record Ticker := { created : Z; period : Duration }.

Definition tick_time (t : Ticker) (k : Z) : Z := created t + k * period t.

(** How many ticks have fired up to and including [now]. *)
Definition ticks_until (t : Ticker) (now : Z) : Z := (now - created t) / period t.

(** Whether a tick waits in the channel at [now], when the channel was last
    emptied at [last]. *)
Definition tick_buffered (t : Ticker) (last now : Z) : bool :=
  ticks_until t last <? ticks_until t now.

(** The instant at which [<-nextLoopTicker.C], started at [now], returns. *)
Definition receive (t : Ticker) (last now : Z) : Z :=
  if tick_buffered t last now then now
  else tick_time t (ticks_until t now + 1).

(** The round loop in time, with nobody cancelling: a round that starts at
    [round_start] and runs for [execution] reaches the select of lines
    141-147 at [round_start + execution]; the next round starts when the
    receive returns. *)
Record Timeline := { last_receive : Z; round_start : Z }.

Definition next_round (t : Ticker) (execution : Duration) (tl : Timeline) : Timeline :=
  let r := receive t (last_receive tl) (round_start tl + execution) in
  {| last_receive := r; round_start := r |}.

Fixpoint timeline (t : Ticker) (execution : nat -> Duration) (K : nat) : Timeline :=
  match K with
  | O => {| last_receive := created t; round_start := created t |}
  | S k => next_round t (execution k) (timeline t execution k)
  end.

(** The gap between the starts of round K and round K+1. *)
Definition gap (t : Ticker) (execution : nat -> Duration) (K : nat) : Z :=
  round_start (timeline t execution (S K)) - round_start (timeline t execution K).

(** ** Vocabulary of the statements *)

(** The port [getNameservers] picks for a protocol. *)
Definition port_of (protocol : string) : Z :=
  if String.eqb protocol TCPTLSProtoName then DefaultDNSOverTLSPort else DefaultDNSPort.

(** A lookup that answers with two nameservers for [example.com] and fails
    for every other domain. *)
Definition lookup_example (rootDomain : string) : LookupResult :=
  if String.eqb rootDomain "example.com"
  then ([ {| Host := "ns1.example.com." |}; {| Host := "ns2.example.com." |} ], None)
  else ([], Some "no such host").

Definition config_example : Config :=
  {| RootDomain := "example.com"; Protocol := UDPProtoName;
     SeedDomains := ["a.example.com"]; Delay := 10 * Millisecond;
     ParallelQueries := 4 |}.

(** A network on which every dial and every exchange succeeds. *)
Definition net_up : NetEnv :=
  {| dial_outcome := fun _ => None; exchange_outcome := fun _ => (20 * Millisecond, None) |}.

(** A network on which nothing can be dialed. *)
Definition net_down : NetEnv :=
  {| dial_outcome := fun _ => Some "connection refused";
     exchange_outcome := fun _ => (0, Some "i/o timeout") |}.

(** A network that accepts connections and then times out. *)
Definition net_mute : NetEnv :=
  {| dial_outcome := fun _ => None;
     exchange_outcome := fun _ => (300 * Millisecond, Some "i/o timeout") |}.

Definition query_example : QueryParameters :=
  {| HostAndPort := "ns1.example.com.:853"; QName := "x1.a.example.com"; QType := TypeA |}.

Definition question_example : Msg := SetQuestion (Fqdn "x1.a.example.com") TypeA.

(** An exchange over a connection that was wrapped by [utls.UClient]. *)
Definition randomized_exchange (e : Event) : bool :=
  match e with
  | EvExchange _ true _ _ => true
  | _ => false
  end.

(** The events a computation appends to the wire. *)
Definition events_of {A} (m : M A) : list Event := events (snd (m wire0)).

(** *** Counting goroutines *)

Definition b2z (b : bool) : Z := if b then 1 else 0.

Definition count {A} (f : A -> bool) (l : list A) : Z :=
  Z.of_nat (List.length (filter f l)).

(** The goroutine has returned from line 136. *)
Definition exited (t : Task) : bool :=
  match t_pc t with TaskExited => true | _ => false end.

(** The goroutine has not called [awaitGroup.Done()]. *)
Definition pending (t : Task) : bool := negb (exited t).

(** The goroutine's query is outstanding: spawned and not yet finished. *)
Definition in_flight (t : Task) : bool :=
  match t_pc t with TaskQuery | TaskDone => true | _ => false end.

Definition of_round (r : nat) (t : Task) : bool := Nat.eqb (t_round t) r.

Definition outstanding (s : State) : Z := count in_flight (tasks s).
Definition unjoined (s : State) : Z := count pending (tasks s).
Definition dispatched (r : nat) (s : State) : Z := count (of_round r) (tasks s).

Section Invariants.

Variable nameserver : string.
Variable parameters : StressTestParameters.
Variable NewDistinctHeavyHitterGenerator : list string -> (nat -> string) + error.

Let N := stp_ParallelQueries parameters.

(** What the program point says about the wait group and about the tasks
    of the current round. *)
Definition phase_inv (s : State) : Prop :=
  match pc s with
  | AtSpawn i =>
      0 <= i <= N /\ dispatched (round s) s = i /\ awaitGroup s = (N - i) + unjoined s
  | AtWait =>
      0 <= N /\ dispatched (round s) s = N /\ awaitGroup s = unjoined s
  | AtPace =>
      0 <= N /\ dispatched (round s) s = N /\ awaitGroup s = 0 /\ unjoined s = 0
  | Exited _ =>
      awaitGroup s = 0 /\ unjoined s = 0 /\
      (dispatched (round s) s = 0 \/ dispatched (round s) s = N)
  | _ =>
      dispatched (round s) s = 0 /\ awaitGroup s = 0 /\ unjoined s = 0
  end.

Record join_inv (s : State) : Prop := {
  ji_rounds : Forall (fun t => (t_round t <= round s)%nat) (tasks s);
  ji_old : Forall (fun t => (t_round t < round s)%nat -> t_pc t = TaskExited) (tasks s);
  ji_past : forall r, (r < round s)%nat -> dispatched r s = N;
  ji_bound : unjoined s <= dispatched (round s) s;
  ji_phase : phase_inv s
}.

End Invariants.

(** *** The shared query parameters *)

Section Sharing.

Variable nameserver : string.
Variable parameters : StressTestParameters.
Variable NewDistinctHeavyHitterGenerator : list string -> (nat -> string) + error.

Let Next := dhhGenerator_Next parameters NewDistinctHeavyHitterGenerator.

(** What a goroutine finds behind the pointer it captured. *)
Definition deref (s : State) (t : Task) : option QueryParameters :=
  nth_error (heap s) (t_parameters t).

(** The k first rounds each stored their name, once, in cell 0. *)
Definition writes_of_rounds (k : nat) : list (nat * nat * string) :=
  map (fun r => (r, 0%nat, Next r)) (seq 0 k).

Record share_inv (s : State) : Prop := {
  si_ptr : reusableQuery s = 0%nat;
  si_heap : exists q,
      heap s = [q] /\ HostAndPort q = nameserver /\ QType q = TypeA /\
      match pc s with
      | AtEntry | AtRange | Exited _ => True
      | _ => QName q = Next (round s)
      end;
  si_tasks : Forall (fun t =>
      t_parameters t = 0%nat /\
      (forall x, t_seen t = Some x -> x = Next (t_round t)) /\
      (t_pc t = TaskDone \/ t_pc t = TaskExited -> t_seen t <> None)) (tasks s);
  si_writes : exists k,
      writes s = writes_of_rounds k /\
      match pc s with
      | AtEntry | AtRange => k = round s
      | Exited _ => k = round s \/ k = S (round s)
      | _ => k = S (round s)
      end
}.

(** The reading of the claim on value capture: what a round hands to its
    query goroutines holds that round's name for good. *)
Definition per_round_capture : Prop :=
  forall s, reachable nameserver parameters NewDistinctHeavyHitterGenerator s ->
    Forall (fun t => exists q, deref s t = Some q /\ QName q = Next (t_round t)) (tasks s).

End Sharing.

(** *** The heartbeat *)

(** The rounds, among the first [n], in which the heartbeat is logged. *)
Definition heartbeat_rounds (n : nat) : list nat :=
  filter (fun r => Z.of_nat r mod (keepAliveReminder + 1) =? keepAliveReminder) (seq 0 n).

(** [k] rounds have gone through lines 116-121. *)
Definition beat_inv (s : State) : Prop :=
  exists k,
    keepAliveCounter s = Z.of_nat k mod (keepAliveReminder + 1) /\
    heartbeats s = heartbeat_rounds k /\
    match pc s with
    | AtEntry | AtRange | AtKeepAlive => k = round s
    | Exited _ => k = round s \/ k = S (round s)
    | _ => k = S (round s)
    end.

(** *** Cancellation *)

(** The signal fired no later than a state of round [r0] with [n0] tasks
    spawned. *)
Definition cancel_inv (r0 n0 : nat) (s : State) : Prop :=
  ctxDone s = true /\
  (r0 <= round s <= S r0)%nat /\
  (round s = S r0 ->
     match pc s with
     | AtRange | AtKeepAlive | AtCheckCtx | Exited _ => True
     | _ => False
     end) /\
  (n0 <= List.length (tasks s))%nat /\
  (forall i t, nth_error (tasks s) i = Some t -> (n0 <= i)%nat -> t_round t = r0).

(** *** Progress of a round *)

(** Steps a query goroutine still has to take (lines 135 and 136). *)
Definition steps_left (t : Task) : nat :=
  match t_pc t with
  | TaskQuery => 2
  | TaskDone => 1
  | _ => 0
  end.

Definition work (l : list Task) : nat :=
  fold_right (fun t acc => (steps_left t + acc)%nat) 0%nat l.

Definition recovered (t : Task) : bool :=
  match t_pc t with TaskRecovered _ => true | _ => false end.

(** A schedule made of steps of query goroutines only, the i-th goroutine
    facing the network [envs i]. *)
Definition task_steps (envs : nat -> NetEnv) (schedule : list Action) : Prop :=
  Forall (fun a => exists i, a = ATask i (envs i)) schedule.

(** *** Closeness of two durations: within a tenth of the second one. *)
Definition approximately (x y : Z) : Prop := 10 * Z.abs (x - y) <= y.

(** The reading of the claim on the gap between rounds. *)
Definition gap_is_delay_plus_execution (t : Ticker) (execution : nat -> Duration) : Prop :=
  forall K, approximately (gap t execution K) (period t + execution K).

(** *** A worker that never got past its entry *)
Definition stillborn (s : State) : Prop :=
  (pc s = AtEntry \/ pc s = Exited (Recovered NewTicker_panic_message)) /\
  tasks s = [] /\ wire s = wire0 /\ round s = 0%nat.


(** *** A worker to run: the scenario of the spec *)

Definition nameserver_example : string := "ns1.example.com.:53".

Definition parameters_example : StressTestParameters :=
  {| stp_Delay := 10 * Millisecond; stp_ParallelQueries := 4;
     stp_Protocol := UDPProtoName; stp_SeedDomains := ["a.example.com"] |}.

(** A generator as the spec asks for: it refuses an empty seed list, and
    its k-th name is a fresh label under the first seed. *)
Definition generator_example (seeds : list string) : (nat -> string) + error :=
  match seeds with
  | [] => inr "no seed domains"
  | seed :: _ => inl (fun k => "x" ++ Itoa (Z.of_nat k) ++ "." ++ seed)
  end.

(** Lines 115-131 of one round, then the [n] spawns and the exit of the
    [for] loop: the worker ends at [awaitGroup.Wait()]. *)
Definition dispatch_steps (n : nat) : list Action :=
  app (repeat (AWorker PickTick) 4) (repeat (AWorker PickTick) (S n)).

(** Both steps of the goroutines [base], ..., [base + n - 1]. *)
Definition query_steps (envs : nat -> NetEnv) (base n : nat) : list Action :=
  flat_map (fun i => [ATask (base + i)%nat (envs (base + i)%nat);
                      ATask (base + i)%nat (envs (base + i)%nat)])
           (seq 0 n).

(** One whole round, up to the start of the next one. *)
Definition round_steps (envs : nat -> NetEnv) (base n : nat) : list Action :=
  app (dispatch_steps n)
      (app (query_steps envs base n) [AWorker PickTick; ATick; AWorker PickTick]).

Fixpoint rounds_steps (envs : nat -> NetEnv) (n k : nat) : list Action :=
  match k with
  | O => []
  | S k' => app (rounds_steps envs n k') (round_steps envs (k' * n)%nat n)
  end.

(** The worker enters and runs [k] whole rounds of [n] queries each. *)
Definition schedule_of_rounds (envs : nat -> NetEnv) (n k : nat) : list Action :=
  AWorker PickTick :: rounds_steps envs n k.

(** The state a schedule leads the example worker to (the entry state if the
    schedule cannot be run). *)
Definition state_after (parameters : StressTestParameters) (schedule : list Action) : State :=
  match run parameters generator_example schedule (entry nameserver_example) with
  | Some s => s
  | None => entry nameserver_example
  end.

(** Two rounds done, and the third one waiting at the join with its four
    queries in flight. *)
Definition schedule_mid_round : list Action :=
  app (schedule_of_rounds (fun _ => net_up) 4 2) (dispatch_steps 4).

(** Two whole rounds of the example worker. *)
Definition schedule_two_rounds : list Action :=
  schedule_of_rounds (fun _ => net_up) 4 2.

(** The example worker is cancelled while its third round is in flight. *)
Definition schedule_cancelled_mid_round : list Action :=
  app schedule_mid_round [ACancel].

(** ... and then lets the round finish and goes on until it returns. *)
Definition schedule_drain : list Action :=
  app (query_steps (fun _ => net_up) 8 4) [AWorker PickTick; AWorker PickDone].

(** States from which some schedule leads the worker to return. *)
Definition can_exit (parameters : StressTestParameters)
    (gen : list string -> (nat -> string) + error) (s : State) : Prop :=
  exists schedule s' o,
    run parameters gen schedule s = Some s' /\ pc s' = Exited o.

(** The example worker cancelled mid-round, then drained. *)
Definition schedule_cancelled_and_drained : list Action :=
  app schedule_cancelled_mid_round schedule_drain.

(** The parameters of the example with [Delay] zero. *)
Definition parameters_no_delay : StressTestParameters :=
  {| stp_Delay := 0; stp_ParallelQueries := 4;
     stp_Protocol := UDPProtoName; stp_SeedDomains := ["a.example.com"] |}.

(** The error of an [Exchange] call whose dial is the k-th of the query. *)
Definition Exchange_error (env : NetEnv) (k : nat) : option error :=
  match dial_outcome env k with
  | Some e => Some e
  | None => snd (exchange_outcome env k)
  end.

(** A ticker with the period of the example, created at instant 0. *)
Definition ticker_example : Ticker := {| created := 0; period := 10 * Millisecond |}.
From Stdlib Require Import Permutation.


(** ** Vocabulary of the further properties *)

(** *** What one query puts on the wire *)

(** The events a computation appends when [k] dials have been made before it. *)
Definition trace_from {A} (k : nat) (m : M A) : list Event :=
  events (snd (m {| next_conn := k; events := [] |})).

(** The connections a trace opens, in order. *)
Fixpoint opened (tr : list Event) : list nat :=
  match tr with
  | [] => []
  | EvDial _ _ co :: rest => co :: opened rest
  | _ :: rest => opened rest
  end.

(** The connections a trace closes, in order. *)
Fixpoint closed (tr : list Event) : list nat :=
  match tr with
  | [] => []
  | EvClose co :: rest => co :: closed rest
  | _ :: rest => closed rest
  end.

(** Calls of [Dial], successful or not. *)
Definition is_dial (e : Event) : bool :=
  match e with
  | EvDial _ _ _ | EvDialFailed _ _ => true
  | _ => false
  end.

Definition is_log (e : Event) : bool :=
  match e with EvLog _ => true | _ => false end.

Definition is_UClient (e : Event) : bool :=
  match e with EvUClient _ => true | _ => false end.

Definition is_exchange (e : Event) : bool :=
  match e with EvExchange _ _ _ _ => true | _ => false end.

(** The error a fire-and-forget query meets on a network, if any: that of
    its own dial or, failing that, that of the [Exchange] call. *)
Definition NoResponse_error (env : NetEnv) (k : nat) : option error :=
  match dial_outcome env k with
  | Some e => Some e
  | None => Exchange_error env (S k)
  end.

(** *** The worker as a whole *)

(** Nothing has happened yet: no round, no goroutine, no store, no event. *)
Definition untouched (s : State) : Prop :=
  round s = 0%nat /\ tasks s = [] /\ writes s = [] /\ heartbeats s = [] /\ wire s = wire0.

(** The message of the one error [ExecuteStressTest] builds (line 108). *)
Definition bootstrap_error (err : error) : error :=
  "failed to bootstrap the distinct heavy hitter generator: " ++ err.

(** The worker has not got past the check of lines 123-129 of its first
    round, or has returned. *)
Definition before_first_dispatch (l : Label) : Prop :=
  match l with
  | AtEntry | AtRange | AtKeepAlive | AtCheckCtx | Exited _ => True
  | _ => False
  end.

Section WireOfAWorker.

Variable nameserver : string.
Variable parameters : StressTestParameters.
Variable NewDistinctHeavyHitterGenerator : list string -> (nat -> string) + error.

(** What an event on the wire of a worker may be: a dial of the worker's
    nameserver with the worker's protocol, an exchange of a type-A question
    for a name of the generator, a close, or one of the log lines of the
    loop. *)
Definition worker_event (e : Event) : Prop :=
  match e with
  | EvDial address network _ =>
      address = nameserver /\ network = stp_Protocol parameters
  | EvDialFailed address _ => address = nameserver
  | EvUClient _ => stp_Protocol parameters = TCPTLSProtoName
  | EvExchange _ randomized m _ =>
      randomized = false /\
      exists r, m = SetQuestion
                      (Fqdn (dhhGenerator_Next parameters NewDistinctHeavyHitterGenerator r))
                      TypeA
  | EvClose _ => True
  | EvLog (LogStillBlasting server) => server = nameserver
  | EvLog LogCanceled => True
  | EvLog (LogDialFailed host _) => host = nameserver
  | EvLog (LogQueryFailed _) => True
  | EvLog _ => False
  end.

End WireOfAWorker.

(** The sum of the values of [f] over the rounds 0, ..., n-1. *)
Fixpoint sum_rounds (f : nat -> Z) (n : nat) : Z :=
  match n with
  | O => 0
  | S k => sum_rounds f k + f k
  end.

(** An error is returned only from the entry, by the bootstrap of the
    generator, with the ticker already created. *)
Definition result_inv (parameters : StressTestParameters)
    (gen : list string -> (nat -> string) + error) (s : State) : Prop :=
  match pc s with
  | AtEntry => untouched s
  | Exited (Returned (Some e)) =>
      untouched s /\ 0 < stp_Delay parameters /\
      exists err, gen (stp_SeedDomains parameters) = inr err /\ e = bootstrap_error err
  | _ => True
  end.

(** The wire holds log lines only: nothing was dialed. *)
Definition only_logs (s : State) : Prop :=
  Forall (fun e => is_log e = true) (events (wire s)).

(** The worker is fanning out, joining or pacing. *)
Definition dispatching (l : Label) : Prop :=
  match l with
  | AtSpawn _ | AtWait | AtPace => True
  | _ => False
  end.

(** The invariant of a worker whose context was cancelled before it ran. *)
Definition cancelled_early (s : State) : Prop :=
  ctxDone s = true /\ before_first_dispatch (pc s) /\
  tasks s = [] /\ round s = 0%nat /\ only_logs s.

(** The invariant of a worker with no parallelism to offer. *)
Definition idle_inv (parameters : StressTestParameters) (s : State) : Prop :=
  tasks s = [] /\ only_logs s /\
  (stp_ParallelQueries parameters < 0 -> round s = 0%nat /\ ~ dispatching (pc s)).

(** The example worker with its third round in flight, when the first query
    of that round crashes. *)
Definition schedule_crash : list Action :=
  app schedule_mid_round [ATaskPanic 8 "invalid memory address or nil pointer dereference"].

(** What follows: the context is cancelled and the three other queries of
    the round run to their end. *)
Definition schedule_after_crash : list Action :=
  ACancel :: query_steps (fun _ => net_up) 9 3.

(** The state of the example worker after the crash, the cancellation and
    the end of the three other queries. *)
Definition state_hung : State :=
  state_after parameters_example (app schedule_crash schedule_after_crash).
(** * Properties *)

(** ** Nameserver resolution *)

Lemma fold_left_append_map {A B} (f : A -> B) (l : list A) (acc : list B) :
  fold_left (fun res x => app res [f x]) l acc = app acc (map f l).
Proof.
  revert acc. induction l as [|x l IH]; intros acc; simpl.
  - now rewrite app_nil_r.
  - rewrite IH. now rewrite <- app_assoc.
Qed.

Lemma getNameservers_ok lookup rootDomain protocol nss :
  lookup rootDomain = (nss, None) ->
  getNameservers lookup rootDomain protocol =
    (map (fun ns => JoinHostPort (Host ns) (Itoa (port_of protocol))) nss, None).
Proof.
  intros H. unfold getNameservers, port_of. rewrite H.
  now rewrite fold_left_append_map.
Qed.

Lemma getNameservers_err lookup rootDomain protocol nss e :
  lookup rootDomain = (nss, Some e) ->
  getNameservers lookup rootDomain protocol = ([], Some e).
Proof.
  intros H. unfold getNameservers. now rewrite H.
Qed.

Lemma JoinHostPort_plain host port :
  containsByte ":"%char host = false ->
  JoinHostPort host port = host ++ ":" ++ port.
Proof. intros H. unfold JoinHostPort. now rewrite H. Qed.

Example Itoa_ports : Itoa DefaultDNSPort = "53" /\ Itoa DefaultDNSOverTLSPort = "853".
Proof. split; reflexivity. Qed.

Example JoinHostPort_name :
  JoinHostPort "ns1.example.com." "53" = "ns1.example.com.:53".
Proof. reflexivity. Qed.

Example JoinHostPort_literal_v6 : JoinHostPort "::1" "53" = "[::1]:53".
Proof. reflexivity. Qed.

Example getNameservers_unknown_domain :
  getNameservers lookup_example "example.org" "udp" = ([], Some "no such host").
Proof. reflexivity. Qed.

(** C9. When the NS lookup succeeds, [getNameservers] returns one endpoint
    per NS record, in order: [host:853] when the protocol is tcp-tls and
    [host:53] when it is udp or tcp (hosts are domain names, they hold no
    colon).  When the lookup fails it returns the error and no endpoint. *)
Theorem getNameservers_endpoints lookup rootDomain protocol nss err :
  lookup rootDomain = (nss, err) ->
  Forall (fun ns => containsByte ":"%char (Host ns) = false) nss ->
  (err = None ->
     (protocol = TCPTLSProtoName ->
        getNameservers lookup rootDomain protocol =
          (map (fun ns => Host ns ++ ":853") nss, None)) /\
     (protocol = UDPProtoName \/ protocol = TCPProtoName ->
        getNameservers lookup rootDomain protocol =
          (map (fun ns => Host ns ++ ":53") nss, None)) /\
     List.length (fst (getNameservers lookup rootDomain protocol)) = List.length nss) /\
  (forall e, err = Some e ->
     getNameservers lookup rootDomain protocol = ([], Some e)).
Proof.
  intros Hl Hhosts. split.
  - intros ->. rewrite (getNameservers_ok _ _ _ _ Hl).
    assert (Hmap : forall p,
      map (fun ns => JoinHostPort (Host ns) p) nss = map (fun ns => Host ns ++ ":" ++ p) nss).
    { intros p. apply map_ext_in. intros ns Hin.
      apply JoinHostPort_plain. rewrite Forall_forall in Hhosts. now apply Hhosts. }
    repeat split.
    + intros ->. now rewrite Hmap.
    + intros [-> | ->]; now rewrite Hmap.
    + simpl. now rewrite length_map.
  - intros e ->. now apply getNameservers_err with (nss := nss).
Qed.

Lemma getNameservers_endpoints_witness :
  getNameservers lookup_example "example.com" "tcp-tls" =
    (["ns1.example.com.:853"; "ns2.example.com.:853"], None).
Proof.
  refine (proj1 (proj1 (getNameservers_endpoints lookup_example "example.com" "tcp-tls"
                   _ None eq_refl _) eq_refl) eq_refl).
  repeat constructor.
Defined.

(** ** The entry point *)

(** C4. [Start] returns an error, and spawns no goroutine, exactly when
    nameserver resolution fails.  When resolution succeeds it returns nil and
    has spawned one goroutine per resolved nameserver, in order, all sharing
    the same parameters; what it returns does not depend on any step of a
    goroutine, each of which is still at the entry of [ExecuteStressTest]. *)
Theorem Start_spawns_iff_resolved lookup config :
  let '(o, spawned, _) := Start lookup config in
  let '(nameservers, err) :=
    getNameservers lookup (RootDomain config) (Protocol config) in
  (isErr (returned_error o) = isErr err) /\
  (isErr (snd (lookup (RootDomain config))) = isErr err) /\
  match err with
  | Some e =>
      spawned = [] /\
      o = Returned (Some ("failed to resolve nameservers for the root domain [rootDomain="
                          ++ RootDomain config ++ "]: " ++ e))
  | None =>
      o = Returned None /\
      map go_nameserver spawned = nameservers /\
      List.length spawned = List.length (fst (lookup (RootDomain config))) /\
      Forall (fun g =>
                go_parameters g =
                  {| stp_Delay := Delay config;
                     stp_ParallelQueries := ParallelQueries config;
                     stp_Protocol := Protocol config;
                     stp_SeedDomains := SeedDomains config |} /\
                pc (goroutine_entry g) = AtEntry /\
                tasks (goroutine_entry g) = []) spawned
  end.
Proof.
  unfold Start.
  destruct (lookup (RootDomain config)) as [nss lerr] eqn:Hl.
  destruct lerr as [e|].
  - rewrite (getNameservers_err _ _ _ _ _ Hl). simpl. auto.
  - rewrite (getNameservers_ok _ _ _ _ Hl). simpl.
    repeat split.
    + rewrite map_map. simpl. now rewrite map_id.
    + now rewrite !length_map.
    + rewrite Forall_forall. intros g Hin.
      apply in_map_iff in Hin. destruct Hin as [ns [<- _]]. simpl. auto.
Qed.

Example Start_example :
  Start lookup_example config_example =
    (Returned None,
     [ {| go_nameserver := "ns1.example.com.:53";
          go_parameters := parameters_example |};
       {| go_nameserver := "ns2.example.com.:53";
          go_parameters := parameters_example |} ],
     [ LogIgniting config_example;
       LogResolved "example.com" ["ns1.example.com.:53"; "ns2.example.com.:53"] ]).
Proof. reflexivity. Qed.

(** ** The single-query executors *)

Example SimpleQuery_unreachable :
  SimpleQuery net_down (newDefaultDNSClient UDPProtoName) query_example wire0 =
    (Finished {| WithErr := true; Err := Some "connection refused"; Latency := 0 |},
     {| next_conn := 1;
        events := [EvDialFailed "ns1.example.com.:853" "connection refused"] |}).
Proof. reflexivity. Qed.

Example SimpleQueryWithNoResponse_timeout :
  events_of (SimpleQueryWithNoResponse net_mute (newDefaultDNSClient UDPProtoName)
               query_example) =
    [ EvDial "ns1.example.com.:853" "udp" 0;
      EvDial "ns1.example.com.:853" "udp" 1;
      EvExchange 1 false question_example (Some "i/o timeout");
      EvClose 1;
      EvLog (LogQueryFailed "i/o timeout");
      EvClose 0 ].
Proof. reflexivity. Qed.

(** With tcp-tls the response-capturing variant does not survive a
    successful dial: it wraps [co] into itself (line 179) and hands the
    cyclic [co] to [ExchangeWithConn], which overflows the stack; nothing
    is exchanged and nothing is closed. *)
Lemma SimpleQuery_tls_is_fatal env c q w :
  Net c = TCPTLSProtoName ->
  dial_outcome env (next_conn w) = None ->
  SimpleQuery env c q w =
    (Fatal stack_overflow,
     {| next_conn := S (next_conn w);
        events := app (events w)
                    [ EvDial (HostAndPort q) TCPTLSProtoName (next_conn w);
                      EvUClient (next_conn w) ] |}).
Proof.
  intros Hnet Hdial.
  unfold SimpleQuery, bindR, bind, Dial, UClient, ExchangeWithConn, Close, emit, ret, bind.
  rewrite Hdial, Hnet. simpl.
  now rewrite <- !app_assoc.
Qed.

(** With tcp-tls the fire-and-forget variant never exchanges over the
    connection it wrapped: that connection is left aside, not even closed,
    and the question travels (if at all) over the second connection that
    [Exchange] dials for itself. *)
Lemma SimpleQueryWithNoResponse_tls_trace env c q w :
  Net c = TCPTLSProtoName ->
  dial_outcome env (next_conn w) = None ->
  events (snd (SimpleQueryWithNoResponse env c q w)) =
    app (events w)
      (EvDial (HostAndPort q) TCPTLSProtoName (next_conn w)
       :: EvUClient (next_conn w)
       :: match dial_outcome env (S (next_conn w)) with
          | Some e =>
              [ EvDialFailed (HostAndPort q) e; EvLog (LogQueryFailed e) ]
          | None =>
              EvDial (HostAndPort q) TCPTLSProtoName (S (next_conn w))
              :: EvExchange (S (next_conn w)) false
                   (SetQuestion (Fqdn (QName q)) (QType q))
                   (snd (exchange_outcome env (S (next_conn w))))
              :: EvClose (S (next_conn w))
              :: match snd (exchange_outcome env (S (next_conn w))) with
                 | Some e => [ EvLog (LogQueryFailed e) ]
                 | None => []
                 end
          end).
Proof.
  intros Hnet Hdial.
  unfold SimpleQueryWithNoResponse, Exchange, bindR, bind, Dial, UClient, ExchangeWithConn,
    Close, logPrintf, emit, ret, bind.
  rewrite Hdial, Hnet. simpl.
  destruct (dial_outcome env (S (next_conn w))) as [e|]; simpl.
  - now rewrite <- !app_assoc.
  - destruct (snd (exchange_outcome env (S (next_conn w)))) as [e|]; simpl;
      now rewrite <- !app_assoc.
Qed.

(** The fire-and-forget variant always finishes: whatever the client and
    the network, its run never ends in a fatal error. *)
Lemma SimpleQueryWithNoResponse_finishes env c q w :
  fst (SimpleQueryWithNoResponse env c q w) = Finished tt.
Proof.
  unfold SimpleQueryWithNoResponse, Exchange, bindR, bind, Dial, UClient, ExchangeWithConn,
    Close, logPrintf, emit, ret, bind.
  destruct (dial_outcome env (next_conn w)); simpl; [reflexivity|].
  destruct (String.eqb (Net c) TCPTLSProtoName); simpl;
    destruct (dial_outcome env (S (next_conn w))); simpl; try reflexivity;
    destruct (snd (exchange_outcome env (S (next_conn w)))); reflexivity.
Qed.

Lemma SimpleQueryWithNoResponse_never_randomized env c q :
  forallb (fun e => negb (randomized_exchange e))
          (events_of (SimpleQueryWithNoResponse env c q)) = true.
Proof.
  unfold events_of, SimpleQueryWithNoResponse, Exchange, bindR, bind, Dial, UClient,
    ExchangeWithConn, Close, logPrintf, emit, ret, bind, wire0. simpl.
  destruct (dial_outcome env 0%nat); simpl; [reflexivity|].
  destruct (String.eqb (Net c) TCPTLSProtoName); simpl;
    destruct (dial_outcome env 1%nat); simpl; try reflexivity;
    destruct (snd (exchange_outcome env 1%nat)); reflexivity.
Qed.

(** C1. A tcp-tls query to a reachable nameserver, run by the
    fire-and-forget variant.  It dials connection 0 and wraps it (lines
    195-204), then hands [Exchange] the address: the question travels over
    connection 1, which [Exchange] dialed for itself and which was never
    wrapped.  Nothing is exchanged over connection 0, the one the variant
    dialed and upgraded, and that connection is not closed. *)
Theorem SimpleQueryWithNoResponse_bypasses_upgraded_conn :
  SimpleQueryWithNoResponse net_up (newDefaultDNSClient TCPTLSProtoName)
    query_example wire0 =
    (Finished tt,
     {| next_conn := 2;
        events :=
          [ EvDial "ns1.example.com.:853" "tcp-tls" 0;
            EvUClient 0;
            EvDial "ns1.example.com.:853" "tcp-tls" 1;
            EvExchange 1 false question_example None;
            EvClose 1 ] |}) /\
  existsb randomized_exchange
    (events_of (SimpleQueryWithNoResponse net_up (newDefaultDNSClient TCPTLSProtoName)
                  query_example)) = false /\
  existsb (fun e => match e with EvExchange 0 _ _ _ => true | _ => false end)
    (events_of (SimpleQueryWithNoResponse net_up (newDefaultDNSClient TCPTLSProtoName)
                  query_example)) = false.
Proof. repeat split; reflexivity. Qed.

(** ** Lists of goroutines *)

Lemma count_nonneg {A} (f : A -> bool) l : 0 <= count f l.
Proof. unfold count. lia. Qed.

Lemma count_nil {A} (f : A -> bool) : count f [] = 0.
Proof. reflexivity. Qed.

Lemma count_snoc {A} (f : A -> bool) l x :
  count f (app l [x]) = count f l + b2z (f x).
Proof.
  unfold count, b2z. rewrite filter_app, length_app. cbn [filter].
  destruct (f x); cbn [List.length]; lia.
Qed.

Lemma count_cons {A} (f : A -> bool) l x :
  count f (x :: l) = b2z (f x) + count f l.
Proof.
  unfold count, b2z. cbn [filter].
  destruct (f x); cbn [List.length]; lia.
Qed.

Lemma count_update {A} (f : A -> bool) l i x y :
  nth_error l i = Some x ->
  count f (update i y l) = count f l - b2z (f x) + b2z (f y).
Proof.
  revert i. induction l as [|z l IH]; intros [|i] H; simpl in H; try discriminate.
  - injection H as ->. simpl. rewrite !count_cons. lia.
  - simpl. rewrite !count_cons. rewrite (IH _ H). lia.
Qed.

Lemma count_zero_Forall {A} (f : A -> bool) l :
  count f l = 0 -> Forall (fun x => f x = false) l.
Proof.
  induction l as [|x l IH]; intros H; constructor.
  - rewrite count_cons in H. pose proof (count_nonneg f l).
    destruct (f x); unfold b2z in H; [lia | reflexivity].
  - apply IH. rewrite count_cons in H. pose proof (count_nonneg f l).
    destruct (f x); unfold b2z in H; lia.
Qed.

Lemma count_le {A} (f g : A -> bool) l :
  (forall x, f x = true -> g x = true) -> count f l <= count g l.
Proof.
  intros H. induction l as [|x l IH]; [reflexivity|].
  rewrite !count_cons. specialize (H x).
  destruct (f x), (g x); unfold b2z; try lia; now discriminate H.
Qed.

Lemma count_member {A} (f : A -> bool) l i x :
  nth_error l i = Some x -> f x = true -> 1 <= count f l.
Proof.
  revert i. induction l as [|z l IH]; intros [|i] H Hx; simpl in H; try discriminate.
  - injection H as ->. rewrite count_cons, Hx. pose proof (count_nonneg f l).
    unfold b2z. lia.
  - rewrite count_cons. pose proof (IH _ H Hx). destruct (f z); unfold b2z; lia.
Qed.

Lemma Forall_update {A} (P : A -> Prop) l i x :
  Forall P l -> P x -> Forall P (update i x l).
Proof.
  intros Hl Hx. revert i. induction Hl as [|y l Hy Hl IH]; intros [|i]; simpl;
    constructor; auto.
Qed.

Lemma length_update {A} (l : list A) i x : List.length (update i x l) = List.length l.
Proof.
  revert i. induction l as [|y l IH]; intros [|i]; simpl; auto.
Qed.

Lemma nth_error_update {A} (l : list A) i j x :
  nth_error (update i x l) j =
    if Nat.eqb i j then match nth_error l j with Some _ => Some x | None => None end
    else nth_error l j.
Proof.
  revert i j. induction l as [|y l IH]; intros [|i] [|j]; simpl; auto.
  - now destruct (Nat.eqb _ _).
Qed.

Lemma run_invariant (parameters : StressTestParameters) gen (P : State -> Prop) :
  (forall a s s', P s -> exec parameters gen a s = Some s' -> P s') ->
  forall schedule s s', P s -> run parameters gen schedule s = Some s' -> P s'.
Proof.
  intros Hstep schedule. induction schedule as [|a rest IH]; intros s s' Hs Hrun; simpl in Hrun.
  - now injection Hrun as <-.
  - destruct (exec parameters gen a s) as [s1|] eqn:He; [|discriminate].
    eapply IH; [|exact Hrun]. eapply Hstep; eauto.
Qed.

Lemma run_app parameters gen l1 l2 s :
  run parameters gen (app l1 l2) s =
    match run parameters gen l1 s with
    | Some s1 => run parameters gen l2 s1
    | None => None
    end.
Proof.
  revert s. induction l1 as [|a l1 IH]; intros s; simpl; [reflexivity|].
  destruct (exec parameters gen a s); auto.
Qed.

(** ** The join: the wait group against the goroutines *)

Section Join.

Variable nameserver : string.
Variable parameters : StressTestParameters.
Variable gen : list string -> (nat -> string) + error.

Lemma join_inv_entry : join_inv parameters (entry nameserver).
Proof.
  constructor; simpl; auto.
  - intros r Hr. lia.
  - unfold unjoined, dispatched. simpl. reflexivity.
  - unfold phase_inv. simpl. auto.
Qed.

Ltac unfold_counts :=
  unfold phase_inv, dispatched, unjoined, outstanding in *.

Lemma join_inv_worker c s s' :
  join_inv parameters s -> step_worker parameters gen c s = Some s' ->
  join_inv parameters s'.
Proof.
  intros [H1 H2 H3 H4 H5] He. unfold step_worker in He.
  unfold phase_inv in H5.
  destruct (pc s) eqn:Hpc.
  - (* AtEntry *)
    destruct (NewTicker_panics _).
    + injection He as <-. constructor; unfold_counts; simpl; auto. intuition.
    + destruct (gen _); injection He as <-; constructor; unfold_counts; simpl; auto; intuition.
  - (* AtRange *)
    injection He as <-. unfold store_QName.
    destruct (nth_error _ _); constructor; unfold_counts; simpl; auto.
  - (* AtKeepAlive *)
    destruct (keepAlive _) as [[|] counter]; injection He as <-;
      constructor; unfold_counts; simpl; auto.
  - (* AtCheckCtx *)
    destruct (ctxDone s); injection He as <-;
      constructor; unfold_counts; simpl; auto; intuition.
  - (* AtAdd *)
    destruct H5 as (Hd & Hw & Hu).
    destruct (WaitGroup_Add_panics _ _) eqn:Hp; injection He as <-;
      constructor; unfold_counts; simpl; auto.
    unfold WaitGroup_Add_panics in Hp. apply Z.ltb_ge in Hp. lia.
  - (* AtSpawn *)
    destruct H5 as (Hi & Hd & Hw).
    destruct (i <? _) eqn:Hlt.
    + apply Z.ltb_lt in Hlt. injection He as <-.
      set (t0 := {| t_round := round s; t_parameters := reusableQuery s;
                    t_pc := TaskQuery; t_seen := None |}).
      assert (Hp0 : pending t0 = true) by reflexivity.
      assert (Hr0 : of_round (round s) t0 = true) by apply Nat.eqb_refl.
      constructor; unfold_counts; simpl; fold t0.
      * apply Forall_app. split; auto.
      * apply Forall_app. split; auto. repeat constructor. simpl. lia.
      * intros r Hr. rewrite count_snoc.
        replace (of_round r t0) with false
          by (symmetry; apply Nat.eqb_neq; simpl; lia).
        unfold b2z. rewrite Z.add_0_r. now apply H3.
      * rewrite !count_snoc, Hp0, Hr0. lia.
      * rewrite !count_snoc, Hp0, Hr0. unfold b2z. lia.
    + apply Z.ltb_ge in Hlt. injection He as <-.
      constructor; unfold_counts; simpl; auto. lia.
  - (* AtWait *)
    destruct H5 as (HN & Hd & Hw).
    destruct (awaitGroup s =? 0) eqn:H0; [|discriminate].
    apply Z.eqb_eq in H0. injection He as <-.
    constructor; unfold_counts; simpl; auto. lia.
  - (* AtPace *)
    destruct H5 as (HN & Hd & Hw & Hu).
    assert (Hall : Forall (fun t => t_pc t = TaskExited) (tasks s)).
    { unfold unjoined in Hu. apply count_zero_Forall in Hu.
      eapply Forall_impl; [|exact Hu]. intros t Ht. unfold pending, exited in Ht.
      destruct (t_pc t); simpl in Ht; congruence. }
    assert (Hnext : dispatched (S (round s)) s = 0).
    { unfold dispatched. pose proof (count_nonneg (of_round (S (round s))) (tasks s)).
      assert (count (of_round (S (round s))) (tasks s) <= 0); [|lia].
      clear -H1. induction H1 as [|t l Ht Hl IH]; [reflexivity|].
      rewrite count_cons. unfold of_round at 1.
      replace (Nat.eqb (t_round t) (S (round s))) with false
        by (symmetry; apply Nat.eqb_neq; lia). simpl. exact IH. }
    assert (Htick : join_inv parameters
              (set_pc AtRange (set_round (S (round s)) (set_tickReady false s)))).
    { constructor; unfold_counts; simpl.
      - eapply Forall_impl; [|exact H1]. simpl. intros; lia.
      - eapply Forall_impl; [|exact Hall]. auto.
      - intros r Hr. destruct (Nat.eq_dec r (round s)) as [->|Hne]; auto.
        apply H3. lia.
      - lia.
      - auto. }
    assert (Hdone : join_inv parameters
              (set_pc (Exited (Returned None)) (log LogCanceled s))).
    { constructor; unfold_counts; simpl; auto. }
    destruct (ctxDone s), (tickReady s); try destruct c; try discriminate;
      injection He as <-; auto.
  - discriminate.
Qed.

(** A task that has not called Done belongs to the current round, and the
    worker is spawning or waiting. *)
Lemma pending_task_phase s i t :
  join_inv parameters s ->
  nth_error (tasks s) i = Some t -> pending t = true ->
  t_round t = round s /\ (pc s = AtWait \/ exists j, pc s = AtSpawn j).
Proof.
  intros [H1 H2 H3 H4 H5] Hi Hp.
  pose proof (count_member pending _ _ _ Hi Hp) as Hc.
  split.
  - apply nth_error_In in Hi. rewrite Forall_forall in H1, H2.
    specialize (H1 _ Hi). specialize (H2 _ Hi).
    destruct (Nat.eq_dec (t_round t) (round s)) as [|Hne]; auto.
    assert (Hlt : (t_round t < round s)%nat) by lia.
    apply H2 in Hlt. unfold pending, exited in Hp. rewrite Hlt in Hp. discriminate.
  - unfold phase_inv, unjoined in H5.
    destruct (pc s); eauto; lia.
Qed.

Lemma join_inv_update s i t t' :
  join_inv parameters s ->
  nth_error (tasks s) i = Some t ->
  t_round t' = t_round t -> pending t = true -> pending t' = true ->
  join_inv parameters (set_tasks (update i t' (tasks s)) s).
Proof.
  intros Hinv Hi Hr Hp Hp'.
  destruct (pending_task_phase _ _ _ Hinv Hi Hp) as [Hcur _].
  destruct Hinv as [H1 H2 H3 H4 H5].
  assert (Hof : forall r, of_round r t' = of_round r t)
    by (intros r; unfold of_round; now rewrite Hr).
  assert (Hd : forall r, count (of_round r) (update i t' (tasks s)) =
                         count (of_round r) (tasks s)).
  { intros r. rewrite (count_update _ _ _ _ _ Hi), Hof. lia. }
  assert (Hu : count pending (update i t' (tasks s)) = count pending (tasks s)).
  { rewrite (count_update _ _ _ _ _ Hi), Hp, Hp'. lia. }
  constructor; unfold_counts; simpl.
  - apply Forall_update; auto. rewrite Hr, Hcur. lia.
  - apply Forall_update; auto. rewrite Hr, Hcur. lia.
  - intros r Hlt. rewrite Hd. now apply H3.
  - now rewrite Hu, Hd.
  - destruct (pc s); rewrite ?Hu, ?Hd; auto.
Qed.

Lemma join_inv_ext s s' :
  pc s' = pc s -> round s' = round s -> tasks s' = tasks s ->
  awaitGroup s' = awaitGroup s -> join_inv parameters s -> join_inv parameters s'.
Proof.
  intros Hpc Hr Ht Hw [H1 H2 H3 H4 H5].
  constructor; unfold_counts; rewrite ?Hpc, ?Hr, ?Ht, ?Hw; auto.
Qed.

Lemma join_inv_task i env s s' :
  join_inv parameters s -> step_task parameters i env s = Some s' ->
  join_inv parameters s'.
Proof.
  intros Hinv He. unfold step_task in He.
  destruct (nth_error (tasks s) i) as [t|] eqn:Hi; [|discriminate].
  destruct (t_pc t) eqn:Ht; try discriminate.
  - destruct (nth_error (heap s) (t_parameters t)) as [q|]; [|discriminate].
    injection He as <-.
    apply (join_inv_ext
             (set_tasks (update i (with_t_pc TaskDone (with_t_seen (QName q) t)) (tasks s)) s));
      try reflexivity.
    apply (join_inv_update s i t); auto; unfold pending, exited; simpl; now rewrite ?Ht.
  - injection He as <-.
    assert (Hp : pending t = true) by (unfold pending, exited; now rewrite Ht).
    destruct (pending_task_phase _ _ _ Hinv Hi Hp) as [Hcur Hphase].
    destruct Hinv as [H1 H2 H3 H4 H5].
    set (t' := with_t_pc TaskExited t).
    assert (Hof : forall r, of_round r t' = of_round r t) by reflexivity.
    assert (Hd : forall r, count (of_round r) (update i t' (tasks s)) =
                           count (of_round r) (tasks s)).
    { intros r. rewrite (count_update _ _ _ _ _ Hi), Hof. lia. }
    assert (Hu : count pending (update i t' (tasks s)) = count pending (tasks s) - 1).
    { rewrite (count_update _ _ _ _ _ Hi), Hp.
      change (pending t') with false. unfold b2z. lia. }
    constructor; unfold_counts; simpl.
    + apply Forall_update; auto. simpl. lia.
    + apply Forall_update; auto.
    + intros r Hlt. rewrite Hd. now apply H3.
    + rewrite Hu, Hd. lia.
    + destruct Hphase as [Hpc | [j Hpc]]; rewrite Hpc in *; rewrite Hu, Hd; lia.
Qed.

Lemma join_inv_task_panic i panic s s' :
  join_inv parameters s -> step_task_panic i panic s = Some s' ->
  join_inv parameters s'.
Proof.
  intros Hinv He. unfold step_task_panic in He.
  destruct (nth_error (tasks s) i) as [t|] eqn:Hi; [|discriminate].
  destruct (t_pc t) eqn:Ht; try discriminate.
  injection He as <-.
  apply (join_inv_update s i t); auto; unfold pending, exited; simpl; now rewrite ?Ht.
Qed.

Lemma join_inv_step a s s' :
  join_inv parameters s -> exec parameters gen a s = Some s' ->
  join_inv parameters s'.
Proof.
  intros Hinv He. destruct a; simpl in He.
  - eapply join_inv_worker; eauto.
  - eapply join_inv_task; eauto.
  - eapply join_inv_task_panic; eauto.
  - injection He as <-. eapply join_inv_ext; [| | | |exact Hinv]; reflexivity.
  - destruct (pc s) eqn:Hpc; try discriminate; injection He as <-;
      (eapply join_inv_ext; [| | | |exact Hinv]; reflexivity).
Qed.

Lemma join_inv_reachable s :
  reachable nameserver parameters gen s -> join_inv parameters s.
Proof.
  intros [schedule Hrun].
  eapply run_invariant; [|apply join_inv_entry|exact Hrun].
  intros a s1 s2. apply join_inv_step.
Qed.

End Join.

(** ** The shared query parameters *)

Section Share.

Variable nameserver : string.
Variable parameters : StressTestParameters.
Variable gen : list string -> (nat -> string) + error.

Local Abbreviation Next := (dhhGenerator_Next parameters gen).
Local Abbreviation SInv := (share_inv nameserver parameters gen).

Lemma share_inv_entry : SInv (entry nameserver).
Proof.
  constructor; simpl; auto.
  - eexists. repeat split.
  - exists 0%nat. split; reflexivity.
Qed.

Lemma writes_of_rounds_snoc k :
  writes_of_rounds parameters gen (S k) =
    app (writes_of_rounds parameters gen k) [(k, 0%nat, Next k)].
Proof.
  unfold writes_of_rounds. rewrite seq_S, map_app. reflexivity.
Qed.

Lemma share_inv_worker c s s' :
  SInv s -> step_worker parameters gen c s = Some s' -> SInv s'.
Proof.
  intros [H1 (q & Hh & Hhost & Hty & Hq) H3 (k & Hw & Hk)] He.
  unfold step_worker in He.
  destruct (pc s) eqn:Hpc.
  - destruct (NewTicker_panics _).
    + injection He as <-. constructor; simpl; eauto 10.
    + destruct (gen _); injection He as <-; constructor; simpl; eauto 10.
  - injection He as <-. unfold store_QName. rewrite H1, Hh. simpl.
    constructor; simpl; auto.
    + eexists. repeat split; auto.
    + exists (S k). split; auto. rewrite writes_of_rounds_snoc, Hw, Hk. reflexivity.
  - destruct (keepAlive _) as [[|] counter]; injection He as <-;
      constructor; simpl; eauto 10.
  - destruct (ctxDone s); injection He as <-; constructor; simpl; eauto 10.
  - destruct (WaitGroup_Add_panics _ _); injection He as <-;
      constructor; simpl; eauto 10.
  - destruct (i <? _); injection He as <-; constructor; simpl; eauto 10.
    apply Forall_app. split; auto. repeat constructor; simpl; auto.
    + discriminate.
    + intros [?|?]; discriminate.
  - destruct (awaitGroup s =? 0); [|discriminate]. injection He as <-.
    constructor; simpl; eauto 10.
  - assert (Htick : SInv (set_pc AtRange (set_round (S (round s)) (set_tickReady false s))))
      by (constructor; simpl; eauto 10).
    assert (Hdone : SInv (set_pc (Exited (Returned None)) (log LogCanceled s)))
      by (constructor; simpl; eauto 10).
    destruct (ctxDone s), (tickReady s); try destruct c; try discriminate;
      injection He as <-; auto.
  - discriminate.
Qed.

Lemma share_inv_ext s s' :
  pc s' = pc s -> round s' = round s -> tasks s' = tasks s ->
  heap s' = heap s -> reusableQuery s' = reusableQuery s -> writes s' = writes s ->
  SInv s -> SInv s'.
Proof.
  intros Hpc Hr Ht Hh Hp Hw [H1 H2 H3 H4].
  constructor; rewrite ?Hpc, ?Hr, ?Ht, ?Hh, ?Hp, ?Hw; auto.
Qed.

Lemma share_inv_update s i t' :
  Forall (fun t =>
      t_parameters t = 0%nat /\
      (forall x, t_seen t = Some x -> x = Next (t_round t)) /\
      (t_pc t = TaskDone \/ t_pc t = TaskExited -> t_seen t <> None)) [t'] ->
  SInv s -> SInv (set_tasks (update i t' (tasks s)) s).
Proof.
  intros Ht' [H1 H2 H3 H4]. constructor; simpl; auto.
  apply Forall_update; auto. now inversion Ht'.
Qed.

Lemma share_inv_task i env s s' :
  join_inv parameters s -> SInv s ->
  step_task parameters i env s = Some s' -> SInv s'.
Proof.
  intros Hj Hs He. unfold step_task in He.
  destruct (nth_error (tasks s) i) as [t|] eqn:Hi; [|discriminate].
  pose proof (si_tasks _ _ _ _ Hs) as Hall. rewrite Forall_forall in Hall.
  destruct (Hall t (nth_error_In _ _ Hi)) as (Hptr & Hseen & Hsome).
  destruct (t_pc t) eqn:Ht; try discriminate.
  - destruct (nth_error (heap s) (t_parameters t)) as [q|] eqn:Hq; [|discriminate].
    injection He as <-.
    assert (Hp : pending t = true) by (unfold pending, exited; now rewrite Ht).
    destruct (pending_task_phase _ _ _ _ Hj Hi Hp) as [Hcur Hphase].
    assert (Hname : QName q = Next (t_round t)).
    { destruct (si_heap _ _ _ _ Hs) as (q0 & Hh & _ & _ & Hq0).
      rewrite Hptr, Hh in Hq. simpl in Hq. injection Hq as <-. rewrite Hcur.
      destruct Hphase as [Hpc | [j Hpc]]; rewrite Hpc in Hq0; exact Hq0. }
    apply (share_inv_ext
             (set_tasks (update i (with_t_pc TaskDone (with_t_seen (QName q) t)) (tasks s)) s));
      try reflexivity.
    apply share_inv_update; auto.
    repeat constructor; simpl; auto.
    + intros x Hx. injection Hx as <-. exact Hname.
    + discriminate.
  - injection He as <-.
    apply (share_inv_ext (set_tasks (update i (with_t_pc TaskExited t) (tasks s)) s));
      try reflexivity.
    apply share_inv_update; auto.
    repeat constructor; simpl; auto.
Qed.

Lemma share_inv_task_panic i panic s s' :
  SInv s -> step_task_panic i panic s = Some s' -> SInv s'.
Proof.
  intros Hs He. unfold step_task_panic in He.
  destruct (nth_error (tasks s) i) as [t|] eqn:Hi; [|discriminate].
  pose proof (si_tasks _ _ _ _ Hs) as Hall. rewrite Forall_forall in Hall.
  destruct (Hall t (nth_error_In _ _ Hi)) as (Hptr & Hseen & Hsome).
  destruct (t_pc t) eqn:Ht; try discriminate.
  injection He as <-.
  apply share_inv_update; auto.
  repeat constructor; simpl; auto.
  intros [?|?]; discriminate.
Qed.

Lemma both_inv_step a s s' :
  join_inv parameters s /\ SInv s -> exec parameters gen a s = Some s' ->
  join_inv parameters s' /\ SInv s'.
Proof.
  intros [Hj Hs] He. split; [eapply join_inv_step; eauto|].
  destruct a; simpl in He.
  - eapply share_inv_worker; eauto.
  - eapply share_inv_task; eauto.
  - eapply share_inv_task_panic; eauto.
  - injection He as <-. eapply share_inv_ext; [| | | | | |exact Hs]; reflexivity.
  - destruct (pc s) eqn:Hpc; try discriminate; injection He as <-;
      (eapply share_inv_ext; [| | | | | |exact Hs]; reflexivity).
Qed.

Lemma share_inv_reachable s :
  reachable nameserver parameters gen s -> SInv s.
Proof.
  intros [schedule Hrun].
  apply (run_invariant parameters gen
           (fun s => join_inv parameters s /\ SInv s) both_inv_step schedule
           (entry nameserver) s); auto.
  split; [apply join_inv_entry | apply share_inv_entry].
Qed.

End Share.

(** ** The heartbeat *)

Section Heartbeat.

Variable nameserver : string.
Variable parameters : StressTestParameters.
Variable gen : list string -> (nat -> string) + error.

Lemma heartbeat_rounds_S k :
  heartbeat_rounds (S k) =
    app (heartbeat_rounds k)
        (if Z.of_nat k mod (keepAliveReminder + 1) =? keepAliveReminder then [k] else []).
Proof.
  unfold heartbeat_rounds. rewrite seq_S, filter_app. simpl. reflexivity.
Qed.

Lemma keepAlive_counts k :
  keepAlive (Z.of_nat k mod (keepAliveReminder + 1)) =
    (Z.of_nat k mod (keepAliveReminder + 1) =? keepAliveReminder,
     Z.of_nat (S k) mod (keepAliveReminder + 1)).
Proof.
  unfold keepAlive, keepAliveReminder. change (256 + 1) with 257.
  pose proof (Z.mod_pos_bound (Z.of_nat k) 257 ltac:(lia)) as Hb.
  rewrite Nat2Z.inj_succ. unfold Z.succ.
  rewrite (Z.add_mod (Z.of_nat k) 1 257) by lia.
  change (1 mod 257) with 1.
  destruct (Z.of_nat k mod 257 =? 256) eqn:E.
  - apply Z.eqb_eq in E. rewrite E. reflexivity.
  - apply Z.eqb_neq in E. rewrite (Z.mod_small (Z.of_nat k mod 257 + 1) 257) by lia. reflexivity.
Qed.

Lemma beat_inv_entry : beat_inv (entry nameserver).
Proof. exists 0%nat. repeat split. Qed.

Lemma beat_inv_ext s s' :
  pc s' = pc s -> round s' = round s ->
  keepAliveCounter s' = keepAliveCounter s -> heartbeats s' = heartbeats s ->
  beat_inv s -> beat_inv s'.
Proof.
  intros Hpc Hr Hc Hh (k & H1 & H2 & H3). exists k.
  rewrite Hpc, Hr, Hc, Hh. auto.
Qed.

Lemma beat_inv_worker c s s' :
  beat_inv s -> step_worker parameters gen c s = Some s' -> beat_inv s'.
Proof.
  intros (k & Hc & Hh & Hk) He. unfold step_worker in He.
  destruct (pc s) eqn:Hpc.
  - destruct (NewTicker_panics _); [|destruct (gen _)]; injection He as <-;
      exists k; simpl; auto.
  - injection He as <-. exists k. unfold store_QName.
    destruct (nth_error _ _); simpl; auto.
  - rewrite Hc, keepAlive_counts in He. injection He as <-.
    exists (S k). rewrite heartbeat_rounds_S.
    destruct (_ =? keepAliveReminder); simpl; rewrite Hh, ?app_nil_r; subst k; auto.
  - destruct (ctxDone s); injection He as <-; exists k; simpl; auto.
  - destruct (WaitGroup_Add_panics _ _); injection He as <-; exists k; simpl; auto.
  - destruct (i <? _); injection He as <-; exists k; simpl; auto.
  - destruct (awaitGroup s =? 0); [|discriminate]. injection He as <-.
    exists k; simpl; auto.
  - destruct (ctxDone s), (tickReady s); try destruct c; try discriminate;
      injection He as <-; exists k; simpl; auto.
  - discriminate.
Qed.

Lemma beat_inv_step a s s' :
  beat_inv s -> exec parameters gen a s = Some s' -> beat_inv s'.
Proof.
  intros Hb He. destruct a; simpl in He.
  - eapply beat_inv_worker; eauto.
  - unfold step_task in He.
    destruct (nth_error (tasks s) i) as [t|]; [|discriminate].
    destruct (t_pc t); try discriminate.
    + destruct (nth_error (heap s) _); [|discriminate]. injection He as <-.
      eapply beat_inv_ext; [| | | |exact Hb]; reflexivity.
    + injection He as <-. eapply beat_inv_ext; [| | | |exact Hb]; reflexivity.
  - unfold step_task_panic in He.
    destruct (nth_error (tasks s) i) as [t|]; [|discriminate].
    destruct (t_pc t); try discriminate. injection He as <-.
    eapply beat_inv_ext; [| | | |exact Hb]; reflexivity.
  - injection He as <-. eapply beat_inv_ext; [| | | |exact Hb]; reflexivity.
  - destruct (pc s) eqn:Hpc; try discriminate; injection He as <-;
      (eapply beat_inv_ext; [| | | |exact Hb]; reflexivity).
Qed.

Lemma beat_inv_reachable s :
  reachable nameserver parameters gen s -> beat_inv s.
Proof.
  intros [schedule Hrun].
  eapply run_invariant; [|apply beat_inv_entry|exact Hrun].
  intros a s1 s2. apply beat_inv_step.
Qed.

(** The heartbeat comes with a period of 257 rounds: it is logged in round
    [r] (counted from 0) exactly when [r mod 257 = 256]. *)
Lemma heartbeat_period s r :
  reachable nameserver parameters gen s ->
  In r (heartbeats s) -> Z.of_nat r mod 257 = 256.
Proof.
  intros Hr Hin. destruct (beat_inv_reachable s Hr) as (k & _ & Hh & _).
  rewrite Hh in Hin. unfold heartbeat_rounds in Hin.
  apply filter_In in Hin. destruct Hin as [_ H]. now apply Z.eqb_eq in H.
Qed.

End Heartbeat.

(** ** Cancellation *)

Section Cancellation.

Variable nameserver : string.
Variable parameters : StressTestParameters.
Variable gen : list string -> (nat -> string) + error.

Lemma cancel_inv_start s :
  ctxDone s = true -> cancel_inv (round s) (List.length (tasks s)) s.
Proof.
  intros Hc. repeat split; auto; try lia.
  intros i t Hi Hle. assert (nth_error (tasks s) i <> None) as Hn by congruence.
  apply nth_error_Some in Hn. lia.
Qed.

Lemma cancel_inv_ext r0 n0 s s' :
  pc s' = pc s -> round s' = round s -> tasks s' = tasks s -> ctxDone s' = ctxDone s ->
  cancel_inv r0 n0 s -> cancel_inv r0 n0 s'.
Proof.
  intros Hpc Hr Ht Hc H. unfold cancel_inv in *. rewrite Hpc, Hr, Ht, Hc. exact H.
Qed.

Lemma cancel_inv_update r0 n0 s i t t' :
  nth_error (tasks s) i = Some t -> t_round t' = t_round t ->
  cancel_inv r0 n0 s -> cancel_inv r0 n0 (set_tasks (update i t' (tasks s)) s).
Proof.
  intros Hi Hr (Hc & Hround & Hpc & Hlen & Hnew). unfold cancel_inv. simpl.
  rewrite length_update. repeat split; auto; try lia.
  intros j u Hj Hle. rewrite nth_error_update in Hj.
  destruct (Nat.eqb i j) eqn:E.
  - apply Nat.eqb_eq in E. subst j. rewrite Hi in Hj. injection Hj as <-.
    rewrite Hr. eapply Hnew; eauto.
  - eapply Hnew; eauto.
Qed.

Lemma cancel_inv_worker r0 n0 c s s' :
  cancel_inv r0 n0 s -> step_worker parameters gen c s = Some s' ->
  cancel_inv r0 n0 s'.
Proof.
  intros (Hc & Hround & Hpc & Hlen & Hnew) He. unfold step_worker in He.
  destruct (pc s) eqn:Hp.
  - destruct (NewTicker_panics _); [|destruct (gen _)]; injection He as <-;
      unfold cancel_inv; simpl; auto.
  - injection He as <-. unfold store_QName, cancel_inv.
    destruct (nth_error _ _); simpl; auto.
  - destruct (keepAlive _) as [[|] counter]; injection He as <-;
      unfold cancel_inv; simpl; auto.
  - rewrite Hc in He. injection He as <-. unfold cancel_inv; simpl; auto.
  - destruct (WaitGroup_Add_panics _ _); injection He as <-;
      unfold cancel_inv; simpl; repeat split; auto; try lia;
      intros E; apply Hpc in E; contradiction.
  - assert (Hr0 : round s = r0).
    { destruct (Nat.eq_dec (round s) (S r0)) as [E|E]; [|lia].
      apply Hpc in E. contradiction. }
    destruct (i <? _); injection He as <-; unfold cancel_inv; simpl;
      repeat split; auto; try lia.
    + rewrite length_app. simpl. lia.
    + intros j u Hj Hle.
      destruct (Nat.lt_ge_cases j (List.length (tasks s))) as [Hlt|Hge].
      * rewrite nth_error_app1 in Hj by exact Hlt. eapply Hnew; eauto.
      * rewrite nth_error_app2 in Hj by exact Hge.
        destruct (j - List.length (tasks s))%nat as [|m]; simpl in Hj.
        -- injection Hj as <-. exact Hr0.
        -- destruct m; discriminate.
  - destruct (awaitGroup s =? 0); [|discriminate]. injection He as <-.
    unfold cancel_inv; simpl; repeat split; auto; try lia.
  - assert (Hr0 : round s = r0).
    { destruct (Nat.eq_dec (round s) (S r0)) as [E|E]; [|lia].
      apply Hpc in E. contradiction. }
    rewrite Hc in He.
    destruct (tickReady s); try destruct c; injection He as <-;
      unfold cancel_inv; simpl; repeat split; auto; try lia.
  - discriminate.
Qed.

Lemma cancel_inv_step r0 n0 a s s' :
  cancel_inv r0 n0 s -> exec parameters gen a s = Some s' -> cancel_inv r0 n0 s'.
Proof.
  intros H He. destruct a; simpl in He.
  - eapply cancel_inv_worker; eauto.
  - unfold step_task in He.
    destruct (nth_error (tasks s) i) as [t|] eqn:Hi; [|discriminate].
    destruct (t_pc t); try discriminate.
    + destruct (nth_error (heap s) _) as [q|]; [|discriminate]. injection He as <-.
      apply (cancel_inv_ext r0 n0
               (set_tasks (update i (with_t_pc TaskDone (with_t_seen (QName q) t)) (tasks s)) s));
        try reflexivity.
      eapply cancel_inv_update; eauto.
    + injection He as <-.
      apply (cancel_inv_ext r0 n0
               (set_tasks (update i (with_t_pc TaskExited t) (tasks s)) s));
        try reflexivity.
      eapply cancel_inv_update; eauto.
  - unfold step_task_panic in He.
    destruct (nth_error (tasks s) i) as [t|] eqn:Hi; [|discriminate].
    destruct (t_pc t); try discriminate. injection He as <-.
    eapply cancel_inv_update; eauto.
  - injection He as <-. destruct H as (Hc & H). unfold cancel_inv. simpl. auto.
  - destruct (pc s) eqn:Hpc; try discriminate; injection He as <-;
      (eapply cancel_inv_ext; [| | | |exact H]; try reflexivity; simpl; now rewrite Hpc).
Qed.

(** The worker reads the signal at lines 123-129 and 141-147 and nowhere
    else. *)
Lemma step_worker_ignores_ctx c b s :
  pc s <> AtCheckCtx -> pc s <> AtPace ->
  step_worker parameters gen c (set_ctxDone b s) =
    option_map (set_ctxDone b) (step_worker parameters gen c s).
Proof.
  intros H1 H2. unfold step_worker. simpl.
  destruct (pc s) eqn:Hpc; try congruence; try reflexivity.
  - destruct (NewTicker_panics _); [|destruct (gen _)]; reflexivity.
  - unfold store_QName. simpl. destruct (nth_error _ _); reflexivity.
  - destruct (keepAlive _) as [[|] counter]; reflexivity.
  - destruct (WaitGroup_Add_panics _ _); reflexivity.
  - destruct (i <? _); reflexivity.
  - destruct (awaitGroup s =? 0); reflexivity.
Qed.

(** A query goroutine never looks at the signal: cancelling does not abort
    it. *)
Lemma step_task_ignores_ctx i env b s :
  step_task parameters i env (set_ctxDone b s) =
    option_map (set_ctxDone b) (step_task parameters i env s).
Proof.
  unfold step_task. simpl.
  destruct (nth_error (tasks s) i) as [t|]; [|reflexivity].
  destruct (t_pc t); try reflexivity.
  destruct (nth_error (heap s) _); reflexivity.
Qed.

End Cancellation.

(** ** Pacing in time *)

Lemma timeline_last_receive t execution K :
  last_receive (timeline t execution K) = round_start (timeline t execution K).
Proof. destruct K; reflexivity. Qed.

Lemma receive_bounds t start execution :
  0 < period t -> 0 <= execution ->
  let r := receive t start (start + execution) in
  start + execution <= r /\ r - start <= Z.max execution (period t) /\
  (r = start + execution \/
   (exists k, r = tick_time t k) /\ r - (start + execution) <= period t).
Proof.
  intros Hd He. unfold receive, tick_buffered, ticks_until, tick_time.
  set (c := created t). set (d := period t) in *.
  pose proof (Z.div_mod (start - c) d ltac:(lia)) as E1.
  pose proof (Z.mod_pos_bound (start - c) d Hd) as B1.
  pose proof (Z.div_mod (start + execution - c) d ltac:(lia)) as E2.
  pose proof (Z.mod_pos_bound (start + execution - c) d Hd) as B2.
  assert (Hmono : (start - c) / d <= (start + execution - c) / d)
    by (apply Z.div_le_mono; lia).
  destruct ((start - c) / d <? (start + execution - c) / d) eqn:Hlt; simpl.
  - lia.
  - apply Z.ltb_ge in Hlt.
    assert (Heq : (start + execution - c) / d = (start - c) / d) by lia.
    set (q := (start + execution - c) / d) in *.
    set (m1 := (start - c) mod d) in *. set (m2 := (start + execution - c) mod d) in *.
    rewrite <- Heq in E1.
    repeat split; try nia.
    right. split; [eexists; reflexivity | nia].
Qed.

(** With no cancellation, the next round starts no sooner than the round
    ends and no later than one period after the round started, unless the
    round itself took longer. *)
Lemma gap_bounds t execution K :
  0 < period t -> (forall k, 0 <= execution k) ->
  execution K <= gap t execution K <= Z.max (execution K) (period t).
Proof.
  intros Hd He. unfold gap. simpl. unfold next_round.
  rewrite timeline_last_receive. simpl.
  pose proof (receive_bounds t (round_start (timeline t execution K)) (execution K)
                Hd (He K)) as H.
  simpl in H. lia.
Qed.

(** ** A worker whose Delay is not positive *)

Section NoDelay.

Variable nameserver : string.
Variable parameters : StressTestParameters.
Variable gen : list string -> (nat -> string) + error.

Hypothesis no_delay : stp_Delay parameters <= 0.

Lemma stillborn_step a s s' :
  stillborn s -> exec parameters gen a s = Some s' -> stillborn s'.
Proof.
  intros (Hpc & Ht & Hw & Hr) He. destruct a; simpl in He.
  - unfold step_worker in He. destruct Hpc as [Hpc|Hpc]; rewrite Hpc in He.
    + unfold NewTicker_panics in He.
      replace (stp_Delay parameters <=? 0) with true in He
        by (symmetry; apply Z.leb_le; exact no_delay).
      injection He as <-. unfold stillborn. simpl. auto.
    + discriminate.
  - unfold step_task in He. rewrite Ht in He. destruct i; discriminate.
  - unfold step_task_panic in He. rewrite Ht in He. destruct i; discriminate.
  - injection He as <-. unfold stillborn. simpl. auto.
  - destruct Hpc as [Hpc|Hpc]; rewrite Hpc in He; discriminate.
Qed.

Lemma stillborn_reachable s :
  reachable nameserver parameters gen s -> stillborn s.
Proof.
  intros [schedule Hrun].
  eapply run_invariant; [|idtac|exact Hrun].
  - intros a s1 s2. apply stillborn_step.
  - unfold stillborn. simpl. auto.
Qed.

End NoDelay.

(** ** Failing queries and the join *)

Section Progress.

Variable nameserver : string.
Variable parameters : StressTestParameters.
Variable gen : list string -> (nat -> string) + error.

Lemma reachable_step a s s' :
  reachable nameserver parameters gen s -> exec parameters gen a s = Some s' ->
  reachable nameserver parameters gen s'.
Proof.
  intros [schedule Hrun] He. exists (app schedule [a]).
  rewrite run_app, Hrun. simpl. now rewrite He.
Qed.

Lemma reachable_run schedule s s' :
  reachable nameserver parameters gen s -> run parameters gen schedule s = Some s' ->
  reachable nameserver parameters gen s'.
Proof.
  intros [sched0 Hrun] He. exists (app sched0 schedule).
  now rewrite run_app, Hrun.
Qed.

Lemma work_update l i t t' :
  nth_error l i = Some t ->
  (work (update i t' l) + steps_left t = work l + steps_left t')%nat.
Proof.
  revert i. induction l as [|u l IH]; intros [|i] H; simpl in H; try discriminate.
  - injection H as ->. simpl. lia.
  - simpl. specialize (IH _ H). lia.
Qed.

Lemma work_positive l :
  (0 < work l)%nat -> exists i t, nth_error l i = Some t /\ (0 < steps_left t)%nat.
Proof.
  induction l as [|u l IH]; simpl; intros H; [lia|].
  destruct (steps_left u) eqn:E.
  - destruct IH as (i & t & Hi & Ht); [lia|]. exists (S i), t. auto.
  - exists 0%nat, u. split; [reflexivity | lia].
Qed.

Lemma work_zero l :
  work l = 0%nat -> Forall (fun t => recovered t = false) l ->
  Forall (fun t => t_pc t = TaskExited) l.
Proof.
  induction l as [|u l IH]; intros H Hr; constructor; inversion Hr; subst; simpl in H.
  - unfold steps_left, recovered in *. destruct (t_pc u); try discriminate; auto; lia.
  - apply IH; auto. lia.
Qed.

Lemma exited_unjoined s :
  Forall (fun t => t_pc t = TaskExited) (tasks s) -> unjoined s = 0.
Proof.
  unfold unjoined. induction 1 as [|t l Ht Hl IH]; [reflexivity|].
  rewrite count_cons, IH. unfold pending, exited. now rewrite Ht.
Qed.

(** At the join, whatever the network does to each query, the goroutines
    run to their end and the worker gets past [awaitGroup.Wait()]. *)
Lemma join_completes (envs : nat -> NetEnv) c n :
  forall s,
    reachable nameserver parameters gen s -> pc s = AtWait ->
    Forall (fun t => recovered t = false) (tasks s) ->
    work (tasks s) = n ->
    exists schedule s',
      task_steps envs schedule /\
      run parameters gen (app schedule [AWorker c]) s = Some s' /\
      pc s' = AtPace /\ round s' = round s /\
      Forall (fun t => t_pc t = TaskExited) (tasks s').
Proof.
  induction n as [n IH] using lt_wf_ind. intros s Hreach Hpc Hrec Hwork.
  destruct (Nat.eq_dec n 0) as [Hz|Hnz].
  - rewrite Hz in Hwork.
    pose proof (work_zero _ Hwork Hrec) as Hall.
    pose proof (join_inv_reachable _ _ _ _ Hreach) as [_ _ _ _ Hphase].
    unfold phase_inv in Hphase. rewrite Hpc in Hphase.
    destruct Hphase as (_ & _ & Hw). rewrite (exited_unjoined _ Hall) in Hw.
    exists [], (set_pc AtPace s). repeat split; auto.
    + constructor.
    + simpl. unfold step_worker. rewrite Hpc, Hw. reflexivity.
  - destruct (work_positive (tasks s)) as (i & t & Hi & Ht); [lia|].
    pose proof (share_inv_reachable _ _ _ _ Hreach) as Hs.
    destruct (si_heap _ _ _ _ Hs) as (q & Hh & _).
    pose proof (si_tasks _ _ _ _ Hs) as Hall. rewrite Forall_forall in Hall.
    destruct (Hall t (nth_error_In _ _ Hi)) as (Hptr & _).
    assert (Hstep : exists s1 t', exec parameters gen (ATask i (envs i)) s = Some s1 /\
              pc s1 = pc s /\ round s1 = round s /\ tasks s1 = update i t' (tasks s) /\
              recovered t' = false /\ (steps_left t = S (steps_left t'))).
    { simpl. unfold step_task. rewrite Hi.
      unfold steps_left in Ht |- *. destruct (t_pc t) eqn:Etp; try lia.
      - rewrite Hptr, Hh. simpl. do 2 eexists. repeat split.
      - do 2 eexists. repeat split. }
    destruct Hstep as (s1 & t' & He & Hpc1 & Hr1 & Ht1 & Hrec' & Hsl).
    pose proof (work_update _ _ _ t' Hi) as Hw.
    destruct (IH (work (tasks s1))) with (s := s1) as (sched & s' & Hts & Hrun & Hp' & Hr' & Hall');
      auto.
    + rewrite Ht1. lia.
    + eapply reachable_step; eauto.
    + congruence.
    + rewrite Ht1. apply Forall_update; auto.
    + exists (ATask i (envs i) :: sched), s'. repeat split; auto.
      * constructor; eauto.
      * simpl app. simpl run. simpl in He. rewrite He. exact Hrun.
      * congruence.
Qed.

End Progress.

(** ** The round loop: fan-out and join *)

Lemma in_flight_pending t : in_flight t = true -> pending t = true.
Proof. unfold in_flight, pending, exited. destruct (t_pc t); auto. Qed.

Lemma unjoined_zero_exited s :
  unjoined s = 0 -> Forall (fun t => t_pc t = TaskExited) (tasks s).
Proof.
  intros Hu. unfold unjoined in Hu. apply count_zero_Forall in Hu.
  eapply Forall_impl; [|exact Hu]. intros t Ht. unfold pending, exited in Ht.
  destruct (t_pc t); simpl in Ht; congruence.
Qed.

(** C3. With [ParallelQueries = N] (not negative), in every state a worker
    can reach under any interleaving: at most N queries are outstanding;
    the round in progress has dispatched at most N goroutines, and exactly N
    once the worker is at or past the join; [awaitGroup.Wait()] lets the
    worker through only when every goroutine has finished; every round
    that is over dispatched exactly N goroutines and all of them have
    finished; and a round starts with no goroutine of an earlier round
    unfinished. *)
Theorem round_fanout_is_joined nameserver parameters gen schedule s :
  0 <= stp_ParallelQueries parameters ->
  run parameters gen schedule (entry nameserver) = Some s ->
  outstanding s <= stp_ParallelQueries parameters /\
  dispatched (round s) s <= stp_ParallelQueries parameters /\
  (pc s = AtWait \/ pc s = AtPace ->
     dispatched (round s) s = stp_ParallelQueries parameters) /\
  (forall c s', pc s = AtWait -> step_worker parameters gen c s = Some s' ->
     pc s' = AtPace /\ Forall (fun t => t_pc t = TaskExited) (tasks s)) /\
  (forall r, (r < round s)%nat -> dispatched r s = stp_ParallelQueries parameters) /\
  Forall (fun t => (t_round t < round s)%nat -> t_pc t = TaskExited) (tasks s) /\
  (pc s = AtRange -> Forall (fun t => t_pc t = TaskExited) (tasks s)).
Proof.
  intros HN Hrun.
  assert (Hreach : reachable nameserver parameters gen s) by (now exists schedule).
  destruct (join_inv_reachable _ _ _ _ Hreach) as [H1 H2 H3 H4 H5].
  assert (Hd : dispatched (round s) s <= stp_ParallelQueries parameters).
  { unfold phase_inv in H5. destruct (pc s); lia. }
  assert (Ho : outstanding s <= unjoined s).
  { unfold outstanding, unjoined. apply count_le. apply in_flight_pending. }
  split; [lia|]. split; [exact Hd|]. split; [|split; [|split; [exact H3|split; [exact H2|]]]].
  - intros [Hpc|Hpc]; unfold phase_inv in H5; rewrite Hpc in H5; tauto.
  - intros c s' Hpc Hstep.
    unfold phase_inv in H5. rewrite Hpc in H5. destruct H5 as (_ & _ & Hw).
    unfold step_worker in Hstep. rewrite Hpc in Hstep.
    destruct (awaitGroup s =? 0) eqn:E; [|discriminate]. apply Z.eqb_eq in E.
    injection Hstep as <-. split; [reflexivity|].
    apply unjoined_zero_exited. lia.
  - intros Hpc. unfold phase_inv in H5. rewrite Hpc in H5.
    apply unjoined_zero_exited. tauto.
Qed.

Lemma round_fanout_is_joined_witness :
  outstanding (state_after parameters_example schedule_mid_round) <= 4 /\
  dispatched 2 (state_after parameters_example schedule_mid_round) = 4 /\
  dispatched 1 (state_after parameters_example schedule_mid_round) = 4.
Proof.
  assert (Hrun : run parameters_example generator_example schedule_mid_round
                   (entry nameserver_example) =
                 Some (state_after parameters_example schedule_mid_round))
    by (vm_compute; reflexivity).
  destruct (round_fanout_is_joined nameserver_example parameters_example generator_example
              schedule_mid_round _ ltac:(simpl; lia) Hrun)
    as (H1 & _ & H3 & _ & H5 & _).
  split; [exact H1|]. split.
  - apply H3. left. vm_compute. reflexivity.
  - apply H5. vm_compute. lia.
Defined.

(** ** The shared QName *)

Lemma exec_writes parameters gen a s s' :
  exec parameters gen a s = Some s' -> writes s' <> writes s ->
  (exists c, a = AWorker c) /\ pc s = AtRange.
Proof.
  intros He Hw. destruct a; simpl in He.
  - split; [eauto|]. unfold step_worker in He.
    destruct (pc s) eqn:Hpc; auto; exfalso; apply Hw.
    + destruct (NewTicker_panics _); [|destruct (gen _)]; now injection He as <-.
    + destruct (keepAlive _) as [[|] counter]; now injection He as <-.
    + destruct (ctxDone s); now injection He as <-.
    + destruct (WaitGroup_Add_panics _ _); now injection He as <-.
    + destruct (i <? _); now injection He as <-.
    + destruct (awaitGroup s =? 0); [|discriminate]. now injection He as <-.
    + destruct (ctxDone s), (tickReady s); try destruct c; try discriminate;
        now injection He as <-.
    + discriminate.
  - exfalso. apply Hw. unfold step_task in He.
    destruct (nth_error (tasks s) i) as [t|]; [|discriminate].
    destruct (t_pc t); try discriminate.
    + destruct (nth_error (heap s) _); [|discriminate]. now injection He as <-.
    + now injection He as <-.
  - exfalso. apply Hw. unfold step_task_panic in He.
    destruct (nth_error (tasks s) i) as [t|]; [|discriminate].
    destruct (t_pc t); try discriminate. now injection He as <-.
  - exfalso. apply Hw. now injection He as <-.
  - exfalso. apply Hw. destruct (pc s); try discriminate; now injection He as <-.
Qed.

(** C5, as stated, fails: the rounds do not hand their goroutines a name of
    their own.  After two rounds of the example worker, what the goroutines
    of round 0 were handed holds the name of round 1. *)
Lemma QName_is_one_shared_field :
  ~ per_round_capture nameserver_example parameters_example generator_example.
Proof.
  intros H.
  specialize (H (state_after parameters_example schedule_two_rounds)).
  assert (Hreach : reachable nameserver_example parameters_example generator_example
                     (state_after parameters_example schedule_two_rounds))
    by (exists schedule_two_rounds; vm_compute; reflexivity).
  specialize (H Hreach).
  rewrite Forall_forall in H.
  destruct (H {| t_round := 0; t_parameters := 0; t_pc := TaskExited;
                 t_seen := Some "x0.a.example.com" |}) as (q & Hq & Hname).
  - vm_compute. auto.
  - vm_compute in Hq. injection Hq as <-. vm_compute in Hname. discriminate.
Qed.

(** C5, amended.  In every state a worker can reach: there is one
    [QueryParameters], every goroutine holds the pointer to it, and its
    QName has been stored once per round, in order, by the round loop; the
    only step that stores it is the worker's step at line 115, taken when
    no goroutine of the round has been spawned yet and every goroutine
    spawned before has finished, so no store happens while a reader is
    active; and every goroutine that ran its query found the name of its
    own round behind the pointer. *)
Theorem QName_single_writer nameserver parameters gen schedule s :
  run parameters gen schedule (entry nameserver) = Some s ->
  (List.length (heap s) = 1%nat /\
   Forall (fun t => t_parameters t = reusableQuery s) (tasks s)) /\
  (exists k, writes s = writes_of_rounds parameters gen k /\
             (k = round s \/ k = S (round s))) /\
  (forall a s', exec parameters gen a s = Some s' -> writes s' <> writes s ->
     (exists c, a = AWorker c) /\ pc s = AtRange /\
     dispatched (round s) s = 0 /\
     Forall (fun t => t_pc t = TaskExited) (tasks s)) /\
  Forall (fun t =>
            (forall x, t_seen t = Some x ->
                       x = dhhGenerator_Next parameters gen (t_round t)) /\
            (t_pc t = TaskDone \/ t_pc t = TaskExited -> t_seen t <> None))
         (tasks s).
Proof.
  intros Hrun.
  assert (Hreach : reachable nameserver parameters gen s) by (now exists schedule).
  pose proof (join_inv_reachable _ _ _ _ Hreach) as [H1 H2 H3 H4 H5].
  pose proof (share_inv_reachable _ _ _ _ Hreach) as [S1 (q & Hh & _) S3 (k & Hw & Hk)].
  split; [split|split; [|split]].
  - now rewrite Hh.
  - eapply Forall_impl; [|exact S3]. simpl. intros t (Hp & _). now rewrite S1.
  - exists k. split; auto. destruct (pc s); intuition.
  - intros a s' Hstep Hchanged.
    destruct (exec_writes _ _ _ _ _ Hstep Hchanged) as [Ha Hpc].
    unfold phase_inv in H5. rewrite Hpc in H5.
    repeat split; auto; [tauto | apply unjoined_zero_exited; tauto].
  - eapply Forall_impl; [|exact S3]. simpl. intros t (_ & Hs & Hn). split; auto.
Qed.

Lemma QName_single_writer_witness :
  List.length (heap (state_after parameters_example schedule_two_rounds)) = 1%nat /\
  Forall (fun t => t_parameters t =
                   reusableQuery (state_after parameters_example schedule_two_rounds))
         (tasks (state_after parameters_example schedule_two_rounds)).
Proof.
  assert (Hrun : run parameters_example generator_example schedule_two_rounds
                   (entry nameserver_example) =
                 Some (state_after parameters_example schedule_two_rounds))
    by (vm_compute; reflexivity).
  exact (proj1 (QName_single_writer nameserver_example parameters_example
                  generator_example schedule_two_rounds _ Hrun)).
Defined.

(** ** Reaching the terminal state once cancelled *)

Section Drain.

Variable nameserver : string.
Variable parameters : StressTestParameters.
Variable gen : list string -> (nat -> string) + error.

Local Abbreviation reach := (reachable nameserver parameters gen).

Local Abbreviation exits := (can_exit parameters gen).

Lemma can_exit_step a s s' :
  exec parameters gen a s = Some s' -> exits s' -> exits s.
Proof.
  intros He (schedule & s2 & o & Hrun & Hpc).
  exists (a :: schedule), s2, o. simpl. now rewrite He.
Qed.

Lemma can_exit_run schedule s s' :
  run parameters gen schedule s = Some s' -> exits s' -> exits s.
Proof.
  intros He (sched2 & s2 & o & Hrun & Hpc).
  exists (app schedule sched2), s2, o. now rewrite run_app, He.
Qed.

Lemma run_keeps_ctxDone schedule s s' :
  ctxDone s = true -> run parameters gen schedule s = Some s' -> ctxDone s' = true.
Proof.
  intros Hc Hrun.
  pose proof (run_invariant parameters gen (cancel_inv (round s) (List.length (tasks s)))
                (cancel_inv_step parameters gen _ _) schedule s s'
                (cancel_inv_start s Hc) Hrun) as H.
  apply H.
Qed.

Lemma exit_from_pace s :
  pc s = AtPace -> ctxDone s = true -> exits s.
Proof.
  intros Hpc Hc.
  exists [AWorker PickDone], (set_pc (Exited (Returned None)) (log LogCanceled s)),
    (Returned None).
  split; [|reflexivity]. simpl. unfold step_worker. rewrite Hpc, Hc.
  destruct (tickReady s); reflexivity.
Qed.

Lemma exit_from_wait s :
  reach s -> pc s = AtWait -> ctxDone s = true ->
  Forall (fun t => recovered t = false) (tasks s) -> exits s.
Proof.
  intros Hr Hpc Hc Hrec.
  destruct (join_completes nameserver parameters gen (fun _ => net_up) PickDone
              _ s Hr Hpc Hrec eq_refl) as (schedule & s' & _ & Hrun & Hpc' & _).
  eapply can_exit_run; [exact Hrun|].
  apply exit_from_pace; auto. eapply run_keeps_ctxDone; eauto.
Qed.

Lemma exit_from_spawn n :
  forall s i,
    reach s -> pc s = AtSpawn i -> ctxDone s = true ->
    Forall (fun t => recovered t = false) (tasks s) ->
    Z.to_nat (stp_ParallelQueries parameters - i) = n -> exits s.
Proof.
  induction n as [|n IH]; intros s i Hr Hpc Hc Hrec Hn.
  - assert (He : exec parameters gen (AWorker PickDone) s = Some (set_pc AtWait s)).
    { simpl. unfold step_worker. rewrite Hpc.
      replace (i <? stp_ParallelQueries parameters) with false
        by (symmetry; apply Z.ltb_ge; lia). reflexivity. }
    apply (can_exit_step (AWorker PickDone) _ _ He).
    apply exit_from_wait; auto. eapply reachable_step; eauto.
  - set (s1 := set_pc (AtSpawn (i + 1))
                 (set_tasks (app (tasks s)
                    [ {| t_round := round s; t_parameters := reusableQuery s;
                         t_pc := TaskQuery; t_seen := None |} ]) s)).
    assert (He : exec parameters gen (AWorker PickDone) s = Some s1).
    { simpl. unfold step_worker. rewrite Hpc.
      replace (i <? stp_ParallelQueries parameters) with true
        by (symmetry; apply Z.ltb_lt; lia). reflexivity. }
    apply (can_exit_step (AWorker PickDone) _ _ He).
    apply (IH s1 (i + 1)); auto.
    + eapply reachable_step; eauto.
    + simpl. apply Forall_app. split; auto.
    + lia.
Qed.

(** Once the signal has fired, a worker none of whose queries crashed can
    always run to its return. *)
Lemma cancelled_worker_can_exit s :
  reach s -> ctxDone s = true ->
  Forall (fun t => recovered t = false) (tasks s) -> exits s.
Proof.
  intros Hr Hc Hrec.
  assert (Hcheck : forall s, pc s = AtCheckCtx -> ctxDone s = true -> exits s).
  { intros s0 Hpc Hc0.
    exists [AWorker PickDone], (set_pc (Exited (Returned None)) (log LogCanceled s0)),
      (Returned None).
    split; [|reflexivity]. simpl. unfold step_worker. now rewrite Hpc, Hc0. }
  assert (Hkeep : forall s, pc s = AtKeepAlive -> ctxDone s = true -> exits s).
  { intros s0 Hpc Hc0.
    destruct (step_worker parameters gen PickDone s0) as [s1|] eqn:He.
    - apply (can_exit_step (AWorker PickDone) _ _ He).
      unfold step_worker in He. rewrite Hpc in He.
      destruct (keepAlive _) as [[|] counter]; injection He as <-; apply Hcheck; auto.
    - unfold step_worker in He. rewrite Hpc in He.
      destruct (keepAlive _) as [[|] counter]; discriminate. }
  assert (Hrange : forall s, pc s = AtRange -> ctxDone s = true -> exits s).
  { intros s0 Hpc Hc0.
    eapply (can_exit_step (AWorker PickDone)).
    - simpl. unfold step_worker. rewrite Hpc. reflexivity.
    - apply Hkeep; [reflexivity|]. unfold store_QName.
      destruct (nth_error _ _); exact Hc0. }
  destruct (pc s) eqn:Hpc.
  - destruct (step_worker parameters gen PickDone s) as [s1|] eqn:He.
    + apply (can_exit_step (AWorker PickDone) _ _ He).
      unfold step_worker in He. rewrite Hpc in He.
      destruct (NewTicker_panics _); [|destruct (gen _)]; injection He as <-.
      * do 3 eexists. split; [apply (eq_refl : run parameters gen [] _ = Some _) | reflexivity].
      * apply Hrange; auto.
      * do 3 eexists. split; [apply (eq_refl : run parameters gen [] _ = Some _) | reflexivity].
    + unfold step_worker in He. rewrite Hpc in He.
      destruct (NewTicker_panics _); [|destruct (gen _)]; discriminate.
  - now apply Hrange.
  - now apply Hkeep.
  - now apply Hcheck.
  - destruct (step_worker parameters gen PickDone s) as [s1|] eqn:He.
    + apply (can_exit_step (AWorker PickDone) _ _ He).
      assert (Hr1 : reach s1)
        by (apply (reachable_step nameserver parameters gen (AWorker PickDone) s s1 Hr He)).
      unfold step_worker in He. rewrite Hpc in He.
      destruct (WaitGroup_Add_panics _ _); injection He as <-.
      * do 3 eexists. split; [apply (eq_refl : run parameters gen [] _ = Some _) | reflexivity].
      * eapply (exit_from_spawn _ _ 0); eauto.
    + unfold step_worker in He. rewrite Hpc in He.
      destruct (WaitGroup_Add_panics _ _); discriminate.
  - eapply exit_from_spawn; eauto.
  - now apply exit_from_wait.
  - now apply exit_from_pace.
  - exists [], s, o. split; auto.
Qed.

End Drain.

(** Cancellation, under any interleaving.  The worker reads the cancellation
    signal at two program points of a
    round, the check before dispatch (lines 123-129) and the select after
    the join (lines 141-147), and each of them leads to the return when the
    signal has fired.  Once it has fired, under any interleaving: the
    goroutines spawned from then on all belong to the round that was in
    progress, the worker gets at most to the check of the following round,
    the query goroutines run on unaffected (their steps do not depend on the
    signal and none is removed), and the worker can reach its return as soon
    as no query has crashed. *)
Theorem cancellation_is_cooperative nameserver parameters gen schedule1 schedule2 s1 s2 :
  run parameters gen schedule1 (entry nameserver) = Some s1 ->
  ctxDone s1 = true ->
  run parameters gen schedule2 s1 = Some s2 ->
  (forall c b s, pc s <> AtCheckCtx -> pc s <> AtPace ->
     step_worker parameters gen c (set_ctxDone b s) =
       option_map (set_ctxDone b) (step_worker parameters gen c s)) /\
  (forall c s, ctxDone s = true -> pc s = AtCheckCtx ->
     step_worker parameters gen c s =
       Some (set_pc (Exited (Returned None)) (log LogCanceled s))) /\
  (forall s, ctxDone s = true -> pc s = AtPace ->
     step_worker parameters gen PickDone s =
       Some (set_pc (Exited (Returned None)) (log LogCanceled s))) /\
  (forall i t, nth_error (tasks s2) i = Some t -> (List.length (tasks s1) <= i)%nat ->
     t_round t = round s1) /\
  (round s2 <= S (round s1))%nat /\
  (round s2 = S (round s1) ->
     match pc s2 with
     | AtRange | AtKeepAlive | AtCheckCtx | Exited _ => True
     | _ => False
     end) /\
  (forall i env b s,
     step_task parameters i env (set_ctxDone b s) =
       option_map (set_ctxDone b) (step_task parameters i env s)) /\
  (List.length (tasks s1) <= List.length (tasks s2))%nat /\
  (Forall (fun t => recovered t = false) (tasks s2) -> can_exit parameters gen s2).
Proof.
  intros Hrun1 Hc Hrun2.
  pose proof (run_invariant parameters gen (cancel_inv (round s1) (List.length (tasks s1)))
                (cancel_inv_step parameters gen _ _) schedule2 s1 s2
                (cancel_inv_start s1 Hc) Hrun2) as (Hc2 & Hround & Hpc & Hlen & Hnew).
  assert (Hreach : reachable nameserver parameters gen s2).
  { eapply reachable_run; [|exact Hrun2]. now exists schedule1. }
  split; [intros; now apply step_worker_ignores_ctx|].
  split; [intros c s Hcs Hp; unfold step_worker; now rewrite Hp, Hcs|].
  split; [intros s Hcs Hp; unfold step_worker; rewrite Hp, Hcs;
          destruct (tickReady s); reflexivity|].
  split; [exact Hnew|].
  split; [lia|].
  split; [exact Hpc|].
  split; [intros; apply step_task_ignores_ctx|].
  split; [exact Hlen|].
  intros Hrec. eapply cancelled_worker_can_exit; eauto.
Qed.

Lemma cancellation_is_cooperative_witness :
  (round (state_after parameters_example schedule_cancelled_and_drained)
   <= S (round (state_after parameters_example schedule_cancelled_mid_round)))%nat /\
  pc (state_after parameters_example schedule_cancelled_and_drained) =
    Exited (Returned None).
Proof.
  assert (Hrun1 : run parameters_example generator_example schedule_cancelled_mid_round
                    (entry nameserver_example) =
                  Some (state_after parameters_example schedule_cancelled_mid_round))
    by (vm_compute; reflexivity).
  assert (Hrun2 : run parameters_example generator_example schedule_drain
                    (state_after parameters_example schedule_cancelled_mid_round) =
                  Some (state_after parameters_example schedule_cancelled_and_drained))
    by (vm_compute; reflexivity).
  destruct (cancellation_is_cooperative nameserver_example parameters_example
              generator_example _ _ _ _ Hrun1 ltac:(vm_compute; reflexivity) Hrun2)
    as (_ & _ & _ & _ & Hr & _).
  split; [exact Hr | vm_compute; reflexivity].
Defined.

(** ** A worker whose Delay is zero *)

(** C10. With [Delay = 0] the creation of the ticker panics on entry: in
    every state the worker can reach it is either still at its entry or has
    returned through the recovery boundary, with no goroutine spawned and
    nothing put on the wire; its first step is that recovered return, and
    the caller receives nil. *)
Theorem zero_delay_worker_dispatches_nothing nameserver parameters gen schedule s :
  stp_Delay parameters = 0 ->
  run parameters gen schedule (entry nameserver) = Some s ->
  tasks s = [] /\ events (wire s) = [] /\ round s = 0%nat /\
  (pc s = AtEntry \/ pc s = Exited (Recovered NewTicker_panic_message)) /\
  (forall c, step_worker parameters gen c (entry nameserver) =
             Some (set_pc (Exited (Recovered NewTicker_panic_message)) (entry nameserver))) /\
  returned_error (Recovered NewTicker_panic_message) = None.
Proof.
  intros Hd Hrun.
  assert (Hle : stp_Delay parameters <= 0) by lia.
  destruct (stillborn_reachable nameserver parameters gen Hle s) as (Hpc & Ht & Hw & Hr).
  { now exists schedule. }
  repeat split; auto.
  - now rewrite Hw.
  - intros c. unfold step_worker, NewTicker_panics. simpl. now rewrite Hd.
Qed.

Lemma zero_delay_worker_dispatches_nothing_witness :
  tasks (state_after parameters_no_delay [AWorker PickTick; ACancel]) = [] /\
  pc (state_after parameters_no_delay [AWorker PickTick; ACancel]) =
    Exited (Recovered NewTicker_panic_message).
Proof.
  destruct (zero_delay_worker_dispatches_nothing nameserver_example parameters_no_delay
              generator_example [AWorker PickTick; ACancel]
              (state_after parameters_no_delay [AWorker PickTick; ACancel])
              eq_refl eq_refl) as (Ht & _).
  split; [exact Ht | reflexivity].
Defined.

(** ** The heartbeat, run *)

(** C2.  The example worker, never cancelled.  Rounds are counted from 0.
    After 256 whole rounds no heartbeat has been logged; after 514 rounds
    exactly two have been, in the rounds numbered 256 and 513, that is in
    the 257th and the 514th round: the period is 257 rounds, not 256. *)
Theorem heartbeat_comes_every_257_rounds :
  option_map (fun s => (round s, heartbeats s))
    (run parameters_example generator_example
         (schedule_of_rounds (fun _ => net_up) 4 256) (entry nameserver_example)) =
    Some (256%nat, []) /\
  option_map (fun s => (round s, heartbeats s))
    (run parameters_example generator_example
         (schedule_of_rounds (fun _ => net_up) 4 514) (entry nameserver_example)) =
    Some (514%nat, [256%nat; 513%nat]).
Proof. split; vm_compute; reflexivity. Qed.

(** ** Pacing *)

(** C6, as stated, fails: with [Delay] 10ms and rounds that take 10ms, the
    rounds start 10ms apart, not 20ms. *)
Lemma gap_is_not_delay_plus_execution :
  ~ gap_is_delay_plus_execution ticker_example (fun _ => 10 * Millisecond).
Proof.
  intros H. specialize (H 0%nat). unfold approximately in H.
  vm_compute in H. apply H. reflexivity.
Qed.

(** A tick waits in the channel exactly when the ticker fired after the
    channel was last emptied and no later than now. *)
Lemma tick_buffered_spec t last now :
  0 < period t ->
  (tick_buffered t last now = true <-> exists k, last < tick_time t k <= now).
Proof.
  intros Hd. unfold tick_buffered, ticks_until, tick_time.
  set (c := created t). set (d := period t) in *.
  pose proof (Z.div_mod (last - c) d ltac:(lia)) as E1.
  pose proof (Z.mod_pos_bound (last - c) d Hd) as B1.
  pose proof (Z.div_mod (now - c) d ltac:(lia)) as E2.
  pose proof (Z.mod_pos_bound (now - c) d Hd) as B2.
  rewrite Z.ltb_lt. split.
  - intros Hlt. exists ((now - c) / d). nia.
  - intros (k & Hl & Hn).
    assert (H1 : (last - c) / d < k) by (apply Z.div_lt_upper_bound; lia).
    assert (H2 : k <= (now - c) / d) by (apply Z.div_le_lower_bound; lia).
    lia.
Qed.

(** While the rounds are shorter than the period they start on the ticks. *)
Lemma timeline_on_ticks t execution n :
  0 < period t ->
  (forall k, (k < n)%nat -> 0 <= execution k < period t) ->
  round_start (timeline t execution n) = tick_time t (Z.of_nat n).
Proof.
  intros Hd. induction n as [|n IH]; intros He.
  - simpl. unfold tick_time. lia.
  - simpl timeline. unfold next_round.
    rewrite timeline_last_receive, IH by (intros; apply He; lia). simpl.
    unfold receive, tick_buffered.
    assert (Hq0 : ticks_until t (tick_time t (Z.of_nat n)) = Z.of_nat n).
    { unfold ticks_until, tick_time.
      replace (created t + Z.of_nat n * period t - created t)
        with (Z.of_nat n * period t) by lia.
      apply Z.div_mul. lia. }
    assert (Hq : ticks_until t (tick_time t (Z.of_nat n) + execution n) = Z.of_nat n).
    { unfold ticks_until, tick_time.
      replace (created t + Z.of_nat n * period t + execution n - created t)
        with (execution n + Z.of_nat n * period t) by lia.
      rewrite Z.div_add by lia. rewrite Z.div_small by (apply He; lia). lia. }
    rewrite Hq0, Hq, Z.ltb_irrefl. f_equal. lia.
Qed.

(** C6, amended.  After a round the worker waits at the select of lines
    141-147 until the context is cancelled or the ticker has a tick for it,
    and then returns or starts the next round.  The ticker was created on
    entry with period [Delay] and is not reset by the rounds.  With no
    cancellation, round K+1 starts at the end of round K when the ticker
    fired during round K, and at the first tick after the end of round K
    otherwise.  So the gap between the starts of round K and round K+1 is
    at least the execution time of round K and at most the larger of that
    execution time and [Delay]; it is the execution time when the round
    took [Delay] or longer, and it is [Delay] when every round up to and
    including K took less than [Delay]. *)
Theorem pace_follows_the_ticker t execution K :
  0 < period t -> (forall k, 0 <= execution k) ->
  ((exists k, round_start (timeline t execution K) < tick_time t k
              <= round_start (timeline t execution K) + execution K) ->
   round_start (timeline t execution (S K)) =
     round_start (timeline t execution K) + execution K) /\
  (~ (exists k, round_start (timeline t execution K) < tick_time t k
                <= round_start (timeline t execution K) + execution K) ->
   exists k,
     round_start (timeline t execution (S K)) = tick_time t k /\
     round_start (timeline t execution K) + execution K < tick_time t k /\
     tick_time t (k - 1) <= round_start (timeline t execution K) + execution K) /\
  (execution K <= gap t execution K <= Z.max (execution K) (period t)) /\
  (period t <= execution K -> gap t execution K = execution K) /\
  ((forall k, (k <= K)%nat -> execution k < period t) -> gap t execution K = period t) /\
  (forall parameters gen c s, pc s = AtPace ->
     (step_worker parameters gen c s = None <->
      ctxDone s = false /\ tickReady s = false)) /\
  (forall parameters gen c s s', pc s = AtPace ->
     step_worker parameters gen c s = Some s' ->
     (ctxDone s = true /\ pc s' = Exited (Returned None) /\ round s' = round s) \/
     (tickReady s = true /\ pc s' = AtRange /\ round s' = S (round s))).
Proof.
  intros Hd He.
  assert (Hnext : round_start (timeline t execution (S K)) =
                  receive t (round_start (timeline t execution K))
                          (round_start (timeline t execution K) + execution K)).
  { simpl. unfold next_round. now rewrite timeline_last_receive. }
  set (start := round_start (timeline t execution K)) in *.
  pose proof (tick_buffered_spec t start (start + execution K) Hd) as Hspec.
  split; [|split; [|split; [|split; [|split; [|split]]]]].
  - intros Hex. rewrite Hnext. unfold receive.
    apply Hspec in Hex. now rewrite Hex.
  - intros Hno. rewrite Hnext. unfold receive.
    destruct (tick_buffered t start (start + execution K)) eqn:Hb.
    + exfalso. apply Hno. now apply Hspec.
    + exists (ticks_until t (start + execution K) + 1). split; [reflexivity|].
      unfold tick_time, ticks_until.
      pose proof (Z.div_mod (start + execution K - created t) (period t) ltac:(lia)) as E.
      pose proof (Z.mod_pos_bound (start + execution K - created t) (period t) Hd) as B.
      nia.
  - now apply gap_bounds.
  - intros Hlong. unfold gap. fold start. rewrite Hnext. unfold receive.
    assert (Hex : exists k, start < tick_time t k <= start + execution K).
    { exists (ticks_until t start + 1). unfold tick_time, ticks_until.
      pose proof (Z.div_mod (start - created t) (period t) ltac:(lia)) as E.
      pose proof (Z.mod_pos_bound (start - created t) (period t) Hd) as B.
      nia. }
    apply Hspec in Hex. rewrite Hex. lia.
  - intros Hshort. unfold gap.
    assert (Hticks : forall n, (n <= S K)%nat ->
              round_start (timeline t execution n) = tick_time t (Z.of_nat n)).
    { intros n Hn. apply timeline_on_ticks; [exact Hd|].
      intros k Hk. split; [apply He | apply Hshort; lia]. }
    rewrite !Hticks by lia. unfold tick_time. lia.
  - intros parameters gen c s Hpc. unfold step_worker. rewrite Hpc.
    destruct (ctxDone s), (tickReady s); try destruct c; split;
      try discriminate; auto; intros [? ?]; discriminate.
  - intros parameters gen c s s' Hpc Hs. unfold step_worker in Hs. rewrite Hpc in Hs.
    destruct (ctxDone s), (tickReady s); try destruct c; try discriminate;
      injection Hs as <-; simpl; auto.
Qed.

Lemma pace_follows_the_ticker_witness :
  gap ticker_example (fun _ => 4 * Millisecond) 3 = 10 * Millisecond /\
  4 * Millisecond <= gap ticker_example (fun _ => 4 * Millisecond) 3
                  <= Z.max (4 * Millisecond) (10 * Millisecond).
Proof.
  assert (Hd : 0 < period ticker_example) by reflexivity.
  assert (He : forall k : nat, 0 <= (fun _ : nat => 4 * Millisecond) k)
    by (intros k; unfold Millisecond; lia).
  destruct (pace_follows_the_ticker ticker_example (fun _ => 4 * Millisecond) 3 Hd He)
    as (_ & _ & Hb & _ & Hs & _).
  split; [|exact Hb].
  apply Hs. intros k _. unfold Millisecond. simpl. lia.
Defined.

(** ** Failing queries *)

Lemma SimpleQueryWithNoResponse_dial_failure env cl q w e :
  dial_outcome env (next_conn w) = Some e ->
  SimpleQueryWithNoResponse env cl q w =
    (Finished tt,
     {| next_conn := S (next_conn w);
        events := app (events w)
                    [ EvDialFailed (HostAndPort q) e;
                      EvLog (LogDialFailed (HostAndPort q) e) ] |}).
Proof.
  intros Hd. unfold SimpleQueryWithNoResponse, bind, Dial, logPrintf, emit, ret.
  rewrite Hd. simpl. now rewrite <- app_assoc.
Qed.

Lemma SimpleQueryWithNoResponse_exchange_failure env cl q w e :
  dial_outcome env (next_conn w) = None ->
  Exchange_error env (S (next_conn w)) = Some e ->
  fst (SimpleQueryWithNoResponse env cl q w) = Finished tt /\
  In (EvLog (LogQueryFailed e)) (events (snd (SimpleQueryWithNoResponse env cl q w))).
Proof.
  intros Hd Hx. split; [apply SimpleQueryWithNoResponse_finishes|].
  unfold Exchange_error in Hx.
  unfold SimpleQueryWithNoResponse, Exchange, bindR, bind, Dial, UClient, ExchangeWithConn,
    Close, logPrintf, emit, ret, bind.
  rewrite Hd.
  destruct (String.eqb (Net cl) TCPTLSProtoName); simpl;
    destruct (dial_outcome env (S (next_conn w))) as [e'|]; simpl.
  all: try (injection Hx as ->).
  all: try (rewrite Hx; simpl).
  all: rewrite ?in_app_iff; simpl; tauto.
Qed.

Lemma SimpleQuery_dial_failure env cl q w e :
  dial_outcome env (next_conn w) = Some e ->
  fst (SimpleQuery env cl q w) =
    Finished {| WithErr := true; Err := Some e; Latency := 0 |}.
Proof.
  intros Hd. unfold SimpleQuery, bind, Dial, ret. now rewrite Hd.
Qed.

Lemma SimpleQuery_exchange_failure env cl q w e :
  Net cl <> TCPTLSProtoName ->
  dial_outcome env (next_conn w) = None ->
  snd (exchange_outcome env (next_conn w)) = Some e ->
  fst (SimpleQuery env cl q w) =
    Finished {| WithErr := true; Err := Some e;
                Latency := fst (exchange_outcome env (next_conn w)) |}.
Proof.
  intros Hn Hd Hx.
  unfold SimpleQuery, bindR, bind, Dial, UClient, ExchangeWithConn, Close, emit, ret, bind.
  rewrite Hd.
  replace (String.eqb (Net cl) TCPTLSProtoName) with false
    by (symmetry; now apply String.eqb_neq).
  simpl. now rewrite Hx.
Qed.

(** The fire-and-forget query, which is the one the round loop runs, and the
    round.  A query that fails, at the dial or in the exchange (a timeout is
    one of the errors), ends in an ordinary return with the error logged and
    nothing else kept of it.  The round is not
    aborted: from any state a worker can reach at its join, with no crashed
    query, and whatever the network does to each of the pending queries, the
    goroutines run to their end, the worker gets past the join with all of
    them finished, and on the next tick it starts the next round. *)
Lemma query_failures_never_stop_the_round
    nameserver parameters gen schedule s (envs : nat -> NetEnv) :
  run parameters gen schedule (entry nameserver) = Some s ->
  pc s = AtWait ->
  Forall (fun t => recovered t = false) (tasks s) ->
  (forall env cl q w e,
     dial_outcome env (next_conn w) = Some e ->
     SimpleQueryWithNoResponse env cl q w =
       (Finished tt,
        {| next_conn := S (next_conn w);
           events := app (events w)
                       [ EvDialFailed (HostAndPort q) e;
                         EvLog (LogDialFailed (HostAndPort q) e) ] |})) /\
  (forall env cl q w e,
     dial_outcome env (next_conn w) = None ->
     Exchange_error env (S (next_conn w)) = Some e ->
     fst (SimpleQueryWithNoResponse env cl q w) = Finished tt /\
     In (EvLog (LogQueryFailed e))
        (events (snd (SimpleQueryWithNoResponse env cl q w)))) /\
  (exists steps s1 s2,
     task_steps envs steps /\
     run parameters gen (app steps [AWorker PickTick]) s = Some s1 /\
     pc s1 = AtPace /\
     Forall (fun t => t_pc t = TaskExited) (tasks s1) /\
     run parameters gen [ATick; AWorker PickTick] s1 = Some s2 /\
     pc s2 = AtRange /\ round s2 = S (round s)).
Proof.
  intros Hrun Hpc Hrec.
  split; [intros; now apply SimpleQueryWithNoResponse_dial_failure|].
  split; [intros; now apply SimpleQueryWithNoResponse_exchange_failure|].
  assert (Hreach : reachable nameserver parameters gen s) by (now exists schedule).
  destruct (join_completes nameserver parameters gen envs PickTick _ s Hreach Hpc Hrec eq_refl)
    as (steps & s1 & Hsteps & Hrun1 & Hpc1 & Hr1 & Hall).
  exists steps, s1,
    (set_pc AtRange (set_round (S (round s1)) (set_tickReady false (set_tickReady true s1)))).
  repeat split; auto.
  - simpl. rewrite Hpc1. simpl. unfold step_worker. simpl. rewrite Hpc1.
    destruct (ctxDone s1); reflexivity.
  - simpl. now rewrite Hr1.
Qed.

Lemma query_failures_never_stop_the_round_witness :
  exists steps s1 s2,
    task_steps (fun _ => net_down) steps /\
    run parameters_example generator_example (app steps [AWorker PickTick])
        (state_after parameters_example schedule_mid_round) = Some s1 /\
    pc s1 = AtPace /\
    Forall (fun t => t_pc t = TaskExited) (tasks s1) /\
    run parameters_example generator_example [ATick; AWorker PickTick] s1 = Some s2 /\
    pc s2 = AtRange /\ round s2 = 3%nat.
Proof.
  assert (Hrun : run parameters_example generator_example schedule_mid_round
                   (entry nameserver_example) =
                 Some (state_after parameters_example schedule_mid_round))
    by (vm_compute; reflexivity).
  refine (proj2 (proj2
    (query_failures_never_stop_the_round nameserver_example parameters_example
       generator_example schedule_mid_round _ (fun _ => net_down) Hrun _ _))).
  - vm_compute. reflexivity.
  - vm_compute. repeat constructor.
Defined.

(** C8.  A query run by the response-capturing variant with tcp-tls against
    a nameserver that accepts the connection and then times out.  The query
    does not end with an error outcome: the connection it wrapped into
    itself on line 179 makes [ExchangeWithConn] overflow the stack, a fatal
    error of the runtime, with nothing exchanged and nothing closed.  With
    udp the same failure is returned as a Response carrying the error, and
    the fire-and-forget variant, with tcp-tls too, logs it and returns. *)
Theorem SimpleQuery_tls_ends_in_a_fatal_error :
  SimpleQuery net_mute (newDefaultDNSClient TCPTLSProtoName) query_example wire0 =
    (Fatal stack_overflow,
     {| next_conn := 1;
        events := [ EvDial "ns1.example.com.:853" "tcp-tls" 0; EvUClient 0 ] |}) /\
  fst (SimpleQuery net_mute (newDefaultDNSClient UDPProtoName) query_example wire0) =
    Finished {| WithErr := true; Err := Some "i/o timeout";
                Latency := 300 * Millisecond |} /\
  SimpleQueryWithNoResponse net_mute (newDefaultDNSClient TCPTLSProtoName)
    query_example wire0 =
    (Finished tt,
     {| next_conn := 2;
        events :=
          [ EvDial "ns1.example.com.:853" "tcp-tls" 0;
            EvUClient 0;
            EvDial "ns1.example.com.:853" "tcp-tls" 1;
            EvExchange 1 false question_example (Some "i/o timeout");
            EvClose 1;
            EvLog (LogQueryFailed "i/o timeout") ] |}).
Proof. repeat split; reflexivity. Qed.

(** * Further properties *)

(** ** The wire of a single query *)

Lemma SimpleQuery_frame env cl q w :
  snd (SimpleQuery env cl q w) =
    {| next_conn := S (next_conn w);
       events := app (events w) (trace_from (next_conn w) (SimpleQuery env cl q)) |}.
Proof.
  unfold trace_from, SimpleQuery, bindR, bind, Dial, UClient, ExchangeWithConn, Close,
    emit, ret, bind.
  simpl.
  destruct (dial_outcome env (next_conn w)); simpl; [reflexivity|].
  destruct (String.eqb (Net cl) TCPTLSProtoName); simpl; now rewrite <- ?app_assoc.
Qed.

Lemma SimpleQueryWithNoResponse_frame env cl q w :
  snd (SimpleQueryWithNoResponse env cl q w) =
    {| next_conn := match dial_outcome env (next_conn w) with
                    | Some _ => S (next_conn w)
                    | None => S (S (next_conn w))
                    end;
       events := app (events w)
                     (trace_from (next_conn w) (SimpleQueryWithNoResponse env cl q)) |}.
Proof.
  unfold trace_from, SimpleQueryWithNoResponse, Exchange, bindR, bind, Dial, UClient,
    ExchangeWithConn, Close, logPrintf, emit, ret, bind.
  simpl.
  destruct (dial_outcome env (next_conn w)); simpl; [now rewrite <- ?app_assoc|].
  destruct (String.eqb (Net cl) TCPTLSProtoName); simpl;
    destruct (dial_outcome env (S (next_conn w))); simpl;
    try destruct (snd (exchange_outcome env (S (next_conn w)))); simpl;
    now rewrite <- ?app_assoc.
Qed.

(** The traces themselves, by cases on the network.  With tcp-tls the
    connection of the query's own dial is cyclic once wrapped: the
    response-capturing variant stops at the wrap, and the fire-and-forget
    variant does not close it. *)
Lemma SimpleQuery_trace env cl q k :
  trace_from k (SimpleQuery env cl q) =
    match dial_outcome env k with
    | Some e => [EvDialFailed (HostAndPort q) e]
    | None =>
        EvDial (HostAndPort q) (Net cl) k
        :: (if String.eqb (Net cl) TCPTLSProtoName then [EvUClient k]
            else [ EvExchange k false (SetQuestion (Fqdn (QName q)) (QType q))
                     (snd (exchange_outcome env k));
                   EvClose k ])
    end.
Proof.
  unfold trace_from, SimpleQuery, bindR, bind, Dial, UClient, ExchangeWithConn, Close,
    emit, ret, bind.
  simpl.
  destruct (dial_outcome env k); simpl; [reflexivity|].
  destruct (String.eqb (Net cl) TCPTLSProtoName); reflexivity.
Qed.

Lemma SimpleQueryWithNoResponse_trace env cl q k :
  trace_from k (SimpleQueryWithNoResponse env cl q) =
    match dial_outcome env k with
    | Some e => [EvDialFailed (HostAndPort q) e; EvLog (LogDialFailed (HostAndPort q) e)]
    | None =>
        EvDial (HostAndPort q) (Net cl) k
        :: app (if String.eqb (Net cl) TCPTLSProtoName then [EvUClient k] else [])
             (app
               (match dial_outcome env (S k) with
                | Some e =>
                    [ EvDialFailed (HostAndPort q) e; EvLog (LogQueryFailed e) ]
                | None =>
                    EvDial (HostAndPort q) (Net cl) (S k)
                    :: EvExchange (S k) false (SetQuestion (Fqdn (QName q)) (QType q))
                         (snd (exchange_outcome env (S k)))
                    :: EvClose (S k)
                    :: match snd (exchange_outcome env (S k)) with
                       | Some e => [EvLog (LogQueryFailed e)]
                       | None => []
                       end
                end)
               (if String.eqb (Net cl) TCPTLSProtoName then [] else [EvClose k]))
    end.
Proof.
  unfold trace_from, SimpleQueryWithNoResponse, Exchange, bindR, bind, Dial, UClient,
    ExchangeWithConn, Close, logPrintf, emit, ret, bind.
  simpl.
  destruct (dial_outcome env k); simpl; [reflexivity|].
  destruct (String.eqb (Net cl) TCPTLSProtoName); simpl;
    destruct (dial_outcome env (S k)); simpl; try reflexivity;
    destruct (snd (exchange_outcome env (S k))); reflexivity.
Qed.

(** X1.  With any protocol other than tcp-tls neither variant leaks a
    connection: whatever the network does, the connections a query closes
    are exactly the connections it opened, each once.  With tcp-tls the
    connection of the query's own successful dial is never closed: the
    response-capturing variant closes nothing at all, and the
    fire-and-forget variant closes only the connection that [Exchange]
    opened, so each such query leaves one connection open. *)
Theorem connections_closed_except_with_tls env cl q k :
  (Net cl <> TCPTLSProtoName ->
     Permutation (opened (trace_from k (SimpleQuery env cl q)))
                 (closed (trace_from k (SimpleQuery env cl q))) /\
     NoDup (closed (trace_from k (SimpleQuery env cl q))) /\
     Permutation (opened (trace_from k (SimpleQueryWithNoResponse env cl q)))
                 (closed (trace_from k (SimpleQueryWithNoResponse env cl q))) /\
     NoDup (closed (trace_from k (SimpleQueryWithNoResponse env cl q)))) /\
  (Net cl = TCPTLSProtoName -> dial_outcome env k = None ->
     opened (trace_from k (SimpleQuery env cl q)) = [k] /\
     closed (trace_from k (SimpleQuery env cl q)) = [] /\
     In k (opened (trace_from k (SimpleQueryWithNoResponse env cl q))) /\
     ~ In k (closed (trace_from k (SimpleQueryWithNoResponse env cl q))) /\
     opened (trace_from k (SimpleQueryWithNoResponse env cl q)) =
       k :: closed (trace_from k (SimpleQueryWithNoResponse env cl q))).
Proof.
  rewrite SimpleQuery_trace, SimpleQueryWithNoResponse_trace.
  assert (Hnd1 : NoDup [k]) by (constructor; [intros []|constructor]).
  assert (Hnd2 : NoDup [S k; k]).
  { constructor; [|exact Hnd1]. intros [H|[]]. lia. }
  split.
  - intros Hn.
    replace (String.eqb (Net cl) TCPTLSProtoName) with false
      by (symmetry; now apply String.eqb_neq).
    destruct (dial_outcome env k); simpl.
    + repeat split; auto; constructor.
    + destruct (dial_outcome env (S k)); simpl;
        try destruct (snd (exchange_outcome env (S k))); simpl;
        repeat split; auto; try apply perm_swap; apply Permutation_refl.
  - intros Hn Hd. rewrite Hd.
    replace (String.eqb (Net cl) TCPTLSProtoName) with true
      by (symmetry; now apply String.eqb_eq).
    simpl.
    destruct (dial_outcome env (S k)); simpl;
      try destruct (snd (exchange_outcome env (S k))); simpl;
      repeat split; auto; intros [H|H]; try lia; contradiction.
Qed.

Lemma connections_closed_except_with_tls_witness :
  In 0%nat (opened (trace_from 0 (SimpleQueryWithNoResponse net_up
                                    (newDefaultDNSClient TCPTLSProtoName) query_example))) /\
  ~ In 0%nat (closed (trace_from 0 (SimpleQueryWithNoResponse net_up
                                      (newDefaultDNSClient TCPTLSProtoName) query_example))).
Proof.
  destruct (connections_closed_except_with_tls net_up (newDefaultDNSClient TCPTLSProtoName)
              query_example 0) as (_ & H).
  destruct (H eq_refl eq_refl) as (_ & _ & Hin & Hout & _).
  split; assumption.
Defined.

(** X2.  [SimpleQuery] dials once per query.  [SimpleQueryWithNoResponse]
    dials twice whenever its first dial succeeds, with any protocol: once
    itself and once more inside [Exchange]; and it exchanges at most once,
    never on the connection of its first dial. *)
Theorem dials_per_query env cl q k :
  List.length (filter is_dial (trace_from k (SimpleQuery env cl q))) = 1%nat /\
  List.length (filter is_dial (trace_from k (SimpleQueryWithNoResponse env cl q))) =
    (match dial_outcome env k with Some _ => 1 | None => 2 end)%nat /\
  (forall co r m e,
     In (EvExchange co r m e) (trace_from k (SimpleQueryWithNoResponse env cl q)) ->
     co = S k /\ dial_outcome env k = None /\ dial_outcome env (S k) = None) /\
  (List.length (filter is_exchange (trace_from k (SimpleQueryWithNoResponse env cl q)))
   <= 1)%nat.
Proof.
  rewrite SimpleQuery_trace, SimpleQueryWithNoResponse_trace.
  destruct (dial_outcome env k) eqn:Hd; simpl.
  - split; [reflexivity|split; [reflexivity|split; [|lia]]].
    intros co r m x [H|[H|[]]]; discriminate.
  - destruct (String.eqb (Net cl) TCPTLSProtoName); simpl;
      destruct (dial_outcome env (S k)) eqn:Hd2; simpl;
      try destruct (snd (exchange_outcome env (S k))); simpl;
      (split; [reflexivity|split; [reflexivity|split; [|lia]]]);
      intros co r m x Hin;
      repeat (destruct Hin as [Hin|Hin]; [try discriminate Hin|]);
      try contradiction; inversion Hin; auto.
Qed.

(** X3.  The connection is wrapped by [utls.UClient] only for the protocol
    tcp-tls, which is also the only one for which [newDefaultDNSClient] gives
    the client a TLS configuration; with a client built for any other
    protocol neither variant ever wraps a connection, and with tcp-tls each
    wraps exactly the connection of a successful first dial. *)
Theorem upgrade_only_for_tls env proto q k :
  (ClientTLSConfig (newDefaultDNSClient proto) <> None <-> proto = TCPTLSProtoName) /\
  filter is_UClient (trace_from k (SimpleQuery env (newDefaultDNSClient proto) q)) =
    (if String.eqb proto TCPTLSProtoName && negb (isErr (dial_outcome env k))
     then [EvUClient k] else []) /\
  filter is_UClient
    (trace_from k (SimpleQueryWithNoResponse env (newDefaultDNSClient proto) q)) =
    (if String.eqb proto TCPTLSProtoName && negb (isErr (dial_outcome env k))
     then [EvUClient k] else []).
Proof.
  rewrite SimpleQuery_trace, SimpleQueryWithNoResponse_trace.
  unfold newDefaultDNSClient. simpl.
  destruct (String.eqb proto TCPTLSProtoName) eqn:Hp.
  - apply String.eqb_eq in Hp. split; [split; [auto|discriminate]|].
    destruct (dial_outcome env k); simpl; [auto|].
    destruct (dial_outcome env (S k)); simpl; [auto|].
    destruct (snd (exchange_outcome env (S k))); auto.
  - apply String.eqb_neq in Hp. split; [split; [congruence|contradiction]|].
    destruct (dial_outcome env k); simpl; [auto|].
    destruct (dial_outcome env (S k)); simpl; [auto|].
    destruct (snd (exchange_outcome env (S k))); auto.
Qed.

(** X4.  [SimpleQuery] writes nothing to the log.  [SimpleQueryWithNoResponse]
    writes one line when the query failed, naming the error (the host too
    when its own dial failed), and nothing when the exchange succeeded. *)
Theorem one_log_line_per_failed_query env cl q k :
  filter is_log (trace_from k (SimpleQuery env cl q)) = [] /\
  filter is_log (trace_from k (SimpleQueryWithNoResponse env cl q)) =
    match dial_outcome env k with
    | Some e => [EvLog (LogDialFailed (HostAndPort q) e)]
    | None =>
        match Exchange_error env (S k) with
        | Some e => [EvLog (LogQueryFailed e)]
        | None => []
        end
    end.
Proof.
  rewrite SimpleQuery_trace, SimpleQueryWithNoResponse_trace. unfold Exchange_error.
  destruct (dial_outcome env k); simpl; [auto|].
  destruct (String.eqb (Net cl) TCPTLSProtoName); simpl;
    destruct (dial_outcome env (S k)); simpl; auto;
    destruct (snd (exchange_outcome env (S k))); auto.
Qed.

(** ** Endpoints *)

Lemma length_append (s1 s2 : string) :
  String.length (s1 ++ s2) = (String.length s1 + String.length s2)%nat.
Proof. induction s1 as [|a s1 IH]; simpl; auto. Qed.

Lemma append_assoc (s1 s2 s3 : string) : (s1 ++ s2) ++ s3 = s1 ++ (s2 ++ s3).
Proof. induction s1 as [|a s1 IH]; simpl; [reflexivity|now rewrite IH]. Qed.

Lemma append_cancel_r (s1 s2 t : string) : s1 ++ t = s2 ++ t -> s1 = s2.
Proof.
  revert s2. induction s1 as [|a s1 IH]; intros [|b s2] H; simpl in H.
  - reflexivity.
  - apply (f_equal String.length) in H. simpl in H.
    rewrite length_append in H. lia.
  - apply (f_equal String.length) in H. simpl in H.
    rewrite length_append in H. lia.
  - injection H as -> H. f_equal. now apply IH.
Qed.

Lemma containsByte_append c s1 s2 :
  containsByte c (s1 ++ s2) = containsByte c s1 || containsByte c s2.
Proof.
  induction s1 as [|a s1 IH]; simpl; [reflexivity|].
  destruct (Ascii.eqb a c); auto.
Qed.

Lemma JoinHostPort_injective port h1 h2 :
  JoinHostPort h1 port = JoinHostPort h2 port -> h1 = h2.
Proof.
  unfold JoinHostPort.
  destruct (containsByte ":"%char h1) eqn:C1, (containsByte ":"%char h2) eqn:C2; intros H.
  - simpl in H. injection H as H.
    change (h1 ++ "]:" ++ port) with (h1 ++ ("]:" ++ port)) in H.
    now apply append_cancel_r in H.
  - exfalso.
    assert (E : ("[" ++ h1 ++ "]") ++ (":" ++ port) = h2 ++ (":" ++ port)).
    { rewrite <- H. simpl. f_equal. now rewrite append_assoc. }
    apply append_cancel_r in E. subst h2.
    simpl in C2. rewrite containsByte_append, C1 in C2. discriminate.
  - exfalso.
    assert (E : h1 ++ (":" ++ port) = ("[" ++ h2 ++ "]") ++ (":" ++ port)).
    { rewrite H. simpl. f_equal. now rewrite append_assoc. }
    apply append_cancel_r in E. subst h1.
    simpl in C1. rewrite containsByte_append, C2 in C1. discriminate.
  - now apply append_cancel_r in H.
Qed.

(** X5.  Resolution keeps the nameservers apart: when the lookup succeeds
    and the NS hosts are pairwise distinct, so are the endpoints, whatever
    the protocol and also for hosts that are bracketed as IPv6 literals; an
    endpoint determines the host it was made from. *)
Theorem getNameservers_keeps_hosts_apart lookup rootDomain protocol nss :
  lookup rootDomain = (nss, None) ->
  NoDup (map Host nss) ->
  NoDup (fst (getNameservers lookup rootDomain protocol)) /\
  (forall ns1 ns2, In ns1 nss -> In ns2 nss ->
     JoinHostPort (Host ns1) (Itoa (port_of protocol)) =
     JoinHostPort (Host ns2) (Itoa (port_of protocol)) -> Host ns1 = Host ns2).
Proof.
  intros Hl Hnd. rewrite (getNameservers_ok _ _ _ _ Hl). simpl.
  split; [|intros ns1 ns2 _ _; apply JoinHostPort_injective].
  clear Hl. induction nss as [|ns nss IH]; simpl in *; [constructor|].
  inversion Hnd as [|h l Hnotin Hnd']; subst.
  constructor; [|apply IH; exact Hnd'].
  intros Hin. apply in_map_iff in Hin. destruct Hin as (ns' & Heq & Hin').
  apply JoinHostPort_injective in Heq. apply Hnotin. rewrite <- Heq.
  now apply in_map.
Qed.

Lemma getNameservers_keeps_hosts_apart_witness :
  NoDup (fst (getNameservers lookup_example "example.com" "tcp")).
Proof.
  refine (proj1 (getNameservers_keeps_hosts_apart lookup_example "example.com" "tcp"
                   _ eq_refl _)).
  simpl. constructor; [|constructor; [|constructor]]; simpl; intuition discriminate.
Defined.

(** ** What a worker returns *)

Section WorkerResult.

Variable nameserver : string.
Variable parameters : StressTestParameters.
Variable gen : list string -> (nat -> string) + error.

Lemma result_inv_step a s s' :
  result_inv parameters gen s -> exec parameters gen a s = Some s' ->
  result_inv parameters gen s'.
Proof.
  unfold result_inv. intros H He. destruct a; simpl in He.
  - unfold step_worker in He. destruct (pc s) eqn:Hpc.
    + unfold NewTicker_panics in He.
      destruct (stp_Delay parameters <=? 0) eqn:Hd.
      * injection He as <-. simpl. exact I.
      * apply Z.leb_gt in Hd.
        destruct (gen (stp_SeedDomains parameters)) as [names|err] eqn:Hg;
          injection He as <-; simpl; auto.
        split; [exact H|]. split; [exact Hd|]. exists err. auto.
    + injection He as <-. simpl. exact I.
    + destruct (keepAlive _) as [[|] counter]; injection He as <-; simpl; exact I.
    + destruct (ctxDone s); injection He as <-; simpl; exact I.
    + destruct (WaitGroup_Add_panics _ _); injection He as <-; simpl; exact I.
    + destruct (i <? _); injection He as <-; simpl; exact I.
    + destruct (awaitGroup s =? 0); [|discriminate]. injection He as <-. simpl. exact I.
    + destruct (ctxDone s), (tickReady s); try destruct c; try discriminate;
        injection He as <-; simpl; exact I.
    + discriminate.
  - unfold step_task in He.
    destruct (nth_error (tasks s) i) as [t|] eqn:Hi; [|discriminate].
    assert (Hne : tasks s <> []) by (intros E; rewrite E in Hi; destruct i; discriminate).
    destruct (pc s) as [| | | | | | | |[[e|]|]] eqn:Hpc;
      try (destruct H as ((_ & Ht & _) & _); contradiction);
      try (destruct H as (_ & Ht & _); contradiction);
      destruct (t_pc t); try discriminate;
      try (destruct (nth_error (heap s) _); [|discriminate]);
      injection He as <-; simpl; rewrite Hpc; exact I.
  - unfold step_task_panic in He.
    destruct (nth_error (tasks s) i) as [t|] eqn:Hi; [|discriminate].
    assert (Hne : tasks s <> []) by (intros E; rewrite E in Hi; destruct i; discriminate).
    destruct (pc s) as [| | | | | | | |[[e|]|]] eqn:Hpc;
      try (destruct H as ((_ & Ht & _) & _); contradiction);
      try (destruct H as (_ & Ht & _); contradiction);
      destruct (t_pc t); try discriminate;
      injection He as <-; simpl; rewrite Hpc; exact I.
  - injection He as <-. simpl. exact H.
  - destruct (pc s) eqn:Hpc; try discriminate; injection He as <-; simpl;
      rewrite Hpc; exact I.
Qed.

(** X6.  The only error [ExecuteStressTest] ever returns is the failure to
    bootstrap the name generator.  It is returned from the entry, after the
    ticker was created (so [Delay] is positive), before any round: nothing
    was stored, logged, spawned or sent.  Once the loop has started, the
    worker returns nil or not at all. *)
Theorem worker_error_is_bootstrap_failure schedule s o e :
  run parameters gen schedule (entry nameserver) = Some s ->
  pc s = Exited o ->
  returned_error o = Some e ->
  (exists err, gen (stp_SeedDomains parameters) = inr err /\ e = bootstrap_error err) /\
  0 < stp_Delay parameters /\
  untouched s.
Proof.
  intros Hrun Hpc Hret.
  assert (H : result_inv parameters gen s).
  { eapply run_invariant; [|idtac|exact Hrun].
    - intros a s1 s2. apply result_inv_step.
    - unfold result_inv, untouched. simpl. auto. }
  unfold result_inv in H. rewrite Hpc in H.
  destruct o as [[e'|]|]; simpl in Hret; try discriminate.
  injection Hret as ->. tauto.
Qed.

End WorkerResult.

Lemma worker_error_is_bootstrap_failure_witness :
  untouched (state_after {| stp_Delay := 10 * Millisecond; stp_ParallelQueries := 4;
                            stp_Protocol := UDPProtoName; stp_SeedDomains := [] |}
                         [AWorker PickTick]).
Proof.
  refine (proj2 (proj2
    (worker_error_is_bootstrap_failure nameserver_example
       {| stp_Delay := 10 * Millisecond; stp_ParallelQueries := 4;
          stp_Protocol := UDPProtoName; stp_SeedDomains := [] |}
       generator_example [AWorker PickTick] _
       (Returned (Some (bootstrap_error "no seed domains")))
       (bootstrap_error "no seed domains") _ _ eq_refl)));
    vm_compute; reflexivity.
Defined.

(** ** Workers that never dispatch *)

Lemma only_logs_log entry s : only_logs s -> only_logs (log entry s).
Proof.
  unfold only_logs, log, logPrintf, emit. simpl. intros H.
  apply Forall_app. split; [exact H|]. repeat constructor.
Qed.

Lemma no_task_step parameters i env s :
  tasks s = [] -> step_task parameters i env s = None.
Proof. intros H. unfold step_task. rewrite H. now destruct i. Qed.

Lemma no_task_panic i panic s :
  tasks s = [] -> step_task_panic i panic s = None.
Proof. intros H. unfold step_task_panic. rewrite H. now destruct i. Qed.

Section Idle.

Variable nameserver : string.
Variable parameters : StressTestParameters.
Variable gen : list string -> (nat -> string) + error.

Hypothesis no_parallelism : stp_ParallelQueries parameters <= 0.

Lemma idle_inv_step a s s' :
  join_inv parameters s -> idle_inv parameters s ->
  exec parameters gen a s = Some s' -> idle_inv parameters s'.
Proof.
  intros [_ _ _ _ Hphase] (Ht & Hl & Hneg) He. unfold phase_inv in Hphase.
  destruct a; simpl in He.
  - unfold step_worker in He. destruct (pc s) eqn:Hpc.
    + destruct (NewTicker_panics _); [|destruct (gen _)]; injection He as <-;
        unfold idle_inv; simpl; repeat split; auto; try (now apply Hneg); tauto.
    + injection He as <-. unfold store_QName, idle_inv.
      destruct (nth_error _ _); simpl; repeat split; auto; try (now apply Hneg); tauto.
    + destruct (keepAlive _) as [[|] counter]; injection He as <-;
        unfold idle_inv; simpl; repeat split; auto;
        try (now apply Hneg); try tauto.
      apply (only_logs_log _ s Hl).
    + destruct (ctxDone s); injection He as <-;
        unfold idle_inv; simpl; repeat split; auto;
        try (now apply Hneg); try tauto.
      apply (only_logs_log _ s Hl).
    + destruct Hphase as (_ & Hw & _).
      unfold WaitGroup_Add_panics in He. rewrite Hw in He. simpl in He.
      destruct (stp_ParallelQueries parameters <? 0) eqn:Hn; injection He as <-;
        unfold idle_inv; simpl; repeat split; auto; try (now apply Hneg); try tauto;
        apply Z.ltb_ge in Hn; lia.
    + destruct Hphase as (Hi & _).
      replace (i <? stp_ParallelQueries parameters) with false in He
        by (symmetry; apply Z.ltb_ge; lia).
      injection He as <-. unfold idle_inv; simpl; repeat split; auto; try lia.
    + destruct Hphase as (HN & _).
      destruct (awaitGroup s =? 0); [|discriminate]. injection He as <-.
      unfold idle_inv; simpl; repeat split; auto; try lia.
    + destruct Hphase as (HN & _).
      destruct (ctxDone s), (tickReady s); try destruct c; try discriminate;
        injection He as <-; unfold idle_inv; simpl; repeat split; auto; try lia;
        apply (only_logs_log _ s Hl).
    + discriminate.
  - now rewrite no_task_step in He.
  - now rewrite no_task_panic in He.
  - injection He as <-. unfold idle_inv. simpl. auto.
  - destruct (pc s) eqn:Hpc; try discriminate; injection He as <-;
      unfold idle_inv; simpl; rewrite Hpc; auto.
Qed.

Lemma idle_inv_reachable s :
  reachable nameserver parameters gen s -> idle_inv parameters s.
Proof.
  intros [schedule Hrun].
  assert (H : join_inv parameters s /\ idle_inv parameters s); [|tauto].
  apply (run_invariant parameters gen
           (fun s => join_inv parameters s /\ idle_inv parameters s)) with
    (schedule := schedule) (s := entry nameserver); auto.
  - intros a s1 s2 [Hj Hi] He. split.
    + eapply join_inv_step; eauto.
    + eapply idle_inv_step; eauto.
  - split; [apply join_inv_entry|].
    unfold idle_inv, only_logs. simpl. repeat split; auto.
Qed.

End Idle.

(** X7.  A worker configured with [ParallelQueries] zero or negative never
    spawns a query goroutine and never touches the network: its wire holds
    log lines only.  With zero it keeps going round after round, idle; with
    a negative value it never gets past [awaitGroup.Add] of its first round,
    which panics. *)
Theorem no_parallelism_no_traffic nameserver parameters gen schedule s :
  stp_ParallelQueries parameters <= 0 ->
  run parameters gen schedule (entry nameserver) = Some s ->
  tasks s = [] /\ only_logs s /\
  (stp_ParallelQueries parameters < 0 ->
     round s = 0%nat /\ ~ dispatching (pc s) /\
     (pc s = AtAdd ->
      forall c, step_worker parameters gen c s =
                Some (set_pc (Exited (Recovered WaitGroup_panic_message)) s))).
Proof.
  intros HN Hrun.
  assert (Hreach : reachable nameserver parameters gen s) by (now exists schedule).
  destruct (idle_inv_reachable nameserver parameters gen HN s Hreach) as (Ht & Hl & Hneg).
  destruct (join_inv_reachable _ _ _ _ Hreach) as [_ _ _ _ Hphase].
  repeat split; auto; try (now apply Hneg).
  intros Hpc c. unfold phase_inv in Hphase. rewrite Hpc in Hphase.
  destruct Hphase as (_ & Hw & _).
  unfold step_worker, WaitGroup_Add_panics. rewrite Hpc, Hw. simpl.
  replace (stp_ParallelQueries parameters <? 0) with true
    by (symmetry; apply Z.ltb_lt; lia).
  reflexivity.
Qed.

Lemma no_parallelism_no_traffic_witness :
  tasks (state_after {| stp_Delay := 10 * Millisecond; stp_ParallelQueries := -1;
                        stp_Protocol := UDPProtoName;
                        stp_SeedDomains := ["a.example.com"] |}
                     (repeat (AWorker PickTick) 5)) = [] /\
  pc (state_after {| stp_Delay := 10 * Millisecond; stp_ParallelQueries := -1;
                     stp_Protocol := UDPProtoName;
                     stp_SeedDomains := ["a.example.com"] |}
                  (repeat (AWorker PickTick) 5)) =
    Exited (Recovered WaitGroup_panic_message).
Proof.
  split; [|vm_compute; reflexivity].
  refine (proj1 (no_parallelism_no_traffic nameserver_example
                   {| stp_Delay := 10 * Millisecond; stp_ParallelQueries := -1;
                      stp_Protocol := UDPProtoName;
                      stp_SeedDomains := ["a.example.com"] |}
                   generator_example (repeat (AWorker PickTick) 5) _ _ _)).
  - simpl. lia.
  - vm_compute. reflexivity.
Defined.

(** ** A context cancelled before the worker runs *)

Lemma cancelled_early_step parameters gen a s s' :
  cancelled_early s -> exec parameters gen a s = Some s' -> cancelled_early s'.
Proof.
  intros (Hc & Hpc & Ht & Hr & Hl) He. destruct a; simpl in He.
  - unfold step_worker in He. destruct (pc s) eqn:Hp; try contradiction.
    + destruct (NewTicker_panics _); [|destruct (gen _)]; injection He as <-;
        unfold cancelled_early; simpl; auto.
    + injection He as <-. unfold store_QName, cancelled_early.
      destruct (nth_error _ _); simpl; auto.
    + destruct (keepAlive _) as [[|] counter]; injection He as <-;
        unfold cancelled_early; simpl; repeat split; auto.
      apply (only_logs_log _ s Hl).
    + rewrite Hc in He. injection He as <-.
      unfold cancelled_early; simpl; repeat split; auto.
      apply (only_logs_log _ s Hl).
    + discriminate.
  - now rewrite no_task_step in He.
  - now rewrite no_task_panic in He.
  - injection He as <-. unfold cancelled_early. simpl. auto.
  - destruct (pc s) eqn:Hp; try discriminate; injection He as <-;
      unfold cancelled_early; simpl; rewrite Hp; auto.
Qed.

(** X8.  A worker whose context is already cancelled when it starts never
    sends a query: under any interleaving it spawns no goroutine, stays in
    round 0 without getting past the check of lines 123-129, and puts only
    log lines on the wire. *)
Theorem cancelled_before_start_sends_nothing nameserver parameters gen schedule s :
  run parameters gen (ACancel :: schedule) (entry nameserver) = Some s ->
  tasks s = [] /\ round s = 0%nat /\ before_first_dispatch (pc s) /\ only_logs s /\
  (pc s = AtCheckCtx ->
     forall c, step_worker parameters gen c s =
               Some (set_pc (Exited (Returned None)) (log LogCanceled s))).
Proof.
  intros Hrun. simpl in Hrun.
  assert (H : cancelled_early s).
  { eapply run_invariant; [|idtac|exact Hrun].
    - intros a s1 s2. apply cancelled_early_step.
    - unfold cancelled_early, only_logs. simpl. repeat split; auto. }
  destruct H as (Hc & Hpc & Ht & Hr & Hl).
  repeat split; auto.
  intros Hp c. unfold step_worker. now rewrite Hp, Hc.
Qed.

Lemma cancelled_before_start_sends_nothing_witness :
  tasks (state_after parameters_example (ACancel :: repeat (AWorker PickTick) 4)) = [] /\
  pc (state_after parameters_example (ACancel :: repeat (AWorker PickTick) 4)) =
    Exited (Returned None).
Proof.
  split; [|vm_compute; reflexivity].
  refine (proj1 (cancelled_before_start_sends_nothing nameserver_example parameters_example
                   generator_example (repeat (AWorker PickTick) 4) _ _)).
  vm_compute. reflexivity.
Defined.

(** ** The wait group *)

(** X9.  The wait group counter stays between 0 and [ParallelQueries] in
    every state a worker can reach; it counts the goroutines that have not
    yet called [Done] once the fan-out is complete, and a goroutine about to
    call [awaitGroup.Done()] always finds it positive, so [Done] never
    drives it negative. *)
Theorem awaitGroup_is_bounded nameserver parameters gen schedule s :
  run parameters gen schedule (entry nameserver) = Some s ->
  0 <= awaitGroup s <= Z.max 0 (stp_ParallelQueries parameters) /\
  (pc s = AtWait -> awaitGroup s = unjoined s) /\
  (forall i t, nth_error (tasks s) i = Some t -> t_pc t = TaskDone -> 1 <= awaitGroup s).
Proof.
  intros Hrun.
  assert (Hreach : reachable nameserver parameters gen s) by (now exists schedule).
  pose proof (join_inv_reachable _ _ _ _ Hreach) as Hj.
  pose proof (ji_phase _ _ Hj) as H5. pose proof (ji_bound _ _ Hj) as H4.
  pose proof (count_nonneg pending (tasks s)) as Hu. fold (unjoined s) in Hu.
  split; [|split].
  - unfold phase_inv in H5. destruct (pc s); lia.
  - intros Hpc. unfold phase_inv in H5. rewrite Hpc in H5. tauto.
  - intros i t Hi Ht.
    assert (Hp : pending t = true) by (unfold pending, exited; now rewrite Ht).
    pose proof (count_member pending _ _ _ Hi Hp) as Hc. fold (unjoined s) in Hc.
    destruct (pending_task_phase _ _ _ _ Hj Hi Hp) as [_ [Hpc|[j Hpc]]];
      unfold phase_inv in H5; rewrite Hpc in H5; lia.
Qed.

Lemma awaitGroup_is_bounded_witness :
  0 <= awaitGroup (state_after parameters_example schedule_mid_round) <= Z.max 0 4.
Proof.
  refine (proj1 (awaitGroup_is_bounded nameserver_example parameters_example
                   generator_example schedule_mid_round _ _)).
  vm_compute. reflexivity.
Defined.

(** ** How many queries a worker has dispatched *)

Lemma sum_rounds_ext f g n :
  (forall r, (r < n)%nat -> f r = g r) -> sum_rounds f n = sum_rounds g n.
Proof.
  induction n as [|n IH]; intros H; simpl; [reflexivity|].
  rewrite IH by (intros; apply H; lia). rewrite H by lia. reflexivity.
Qed.

Lemma sum_rounds_const c n : sum_rounds (fun _ => c) n = c * Z.of_nat n.
Proof. induction n as [|n IH]; simpl sum_rounds; [lia|]. rewrite IH. lia. Qed.

Lemma sum_rounds_add f g n :
  sum_rounds (fun r => f r + g r) n = sum_rounds f n + sum_rounds g n.
Proof. induction n as [|n IH]; simpl; [reflexivity|]. rewrite IH. lia. Qed.

Lemma sum_rounds_indicator k n :
  (k < n)%nat -> sum_rounds (fun r => b2z (Nat.eqb k r)) n = 1.
Proof.
  induction n as [|n IH]; intros H; [lia|]. simpl.
  destruct (Nat.eq_dec k n) as [->|Hne].
  - rewrite Nat.eqb_refl. simpl.
    rewrite (sum_rounds_ext _ (fun _ => 0)), sum_rounds_const; [lia|].
    intros r Hr. replace (Nat.eqb n r) with false; [reflexivity|].
    symmetry. apply Nat.eqb_neq. lia.
  - rewrite IH by lia. replace (Nat.eqb k n) with false; [reflexivity|].
    symmetry. now apply Nat.eqb_neq.
Qed.

Lemma tasks_by_round l n :
  Forall (fun t => (t_round t < n)%nat) l ->
  Z.of_nat (List.length l) = sum_rounds (fun r => count (of_round r) l) n.
Proof.
  induction 1 as [|t l Ht Hl IH].
  - rewrite (sum_rounds_ext _ (fun _ => 0)), sum_rounds_const by reflexivity.
    simpl. lia.
  - rewrite (sum_rounds_ext _ (fun r => b2z (Nat.eqb (t_round t) r) + count (of_round r) l))
      by (intros; rewrite count_cons; reflexivity).
    rewrite sum_rounds_add, sum_rounds_indicator by exact Ht.
    rewrite <- IH. simpl List.length. lia.
Qed.

(** X10.  The number of query goroutines a worker has spawned is
    [ParallelQueries] times the number of rounds it has completed, plus
    those of the round in progress: no round is skipped or repeated and none
    dispatches more or fewer than [ParallelQueries]. *)
Theorem queries_dispatched_so_far nameserver parameters gen schedule s :
  run parameters gen schedule (entry nameserver) = Some s ->
  Z.of_nat (List.length (tasks s)) =
    stp_ParallelQueries parameters * Z.of_nat (round s) + dispatched (round s) s.
Proof.
  intros Hrun.
  assert (Hreach : reachable nameserver parameters gen s) by (now exists schedule).
  destruct (join_inv_reachable _ _ _ _ Hreach) as [H1 _ H3 _ _].
  rewrite (tasks_by_round (tasks s) (S (round s))).
  - simpl sum_rounds.
    rewrite (sum_rounds_ext _ (fun _ => stp_ParallelQueries parameters)) by exact H3.
    rewrite sum_rounds_const. reflexivity.
  - eapply Forall_impl; [|exact H1]. simpl. intros; lia.
Qed.

Lemma queries_dispatched_so_far_witness :
  Z.of_nat (List.length (tasks (state_after parameters_example schedule_mid_round))) =
    4 * 2 + 4.
Proof.
  assert (Hrun : run parameters_example generator_example schedule_mid_round
                   (entry nameserver_example) =
                 Some (state_after parameters_example schedule_mid_round))
    by (vm_compute; reflexivity).
  rewrite (queries_dispatched_so_far nameserver_example parameters_example
             generator_example schedule_mid_round _ Hrun).
  vm_compute. reflexivity.
Defined.

(** ** The wire of a worker *)

Section WorkerWire.

Variable nameserver : string.
Variable parameters : StressTestParameters.
Variable gen : list string -> (nat -> string) + error.

Local Abbreviation ok := (worker_event nameserver parameters gen).

Lemma worker_wire_log entry s :
  ok (EvLog entry) -> Forall ok (events (wire s)) -> Forall ok (events (wire (log entry s))).
Proof.
  intros He H. unfold log, logPrintf, emit. simpl.
  apply Forall_app. split; [exact H|]. repeat constructor. exact He.
Qed.

Lemma worker_wire_query env q k :
  HostAndPort q = nameserver -> QType q = TypeA ->
  (exists r, QName q = dhhGenerator_Next parameters gen r) ->
  Forall ok (trace_from k (SimpleQueryWithNoResponse env (sharedDNSClient parameters) q)).
Proof.
  intros Hh Ht [r Hr]. rewrite SimpleQueryWithNoResponse_trace.
  unfold sharedDNSClient, newDefaultDNSClient. simpl. rewrite Hh, Ht, Hr.
  assert (Hx : forall co e,
            ok (EvExchange co false (SetQuestion (Fqdn (dhhGenerator_Next parameters gen r)) TypeA) e))
    by (intros; simpl; eauto).
  destruct (dial_outcome env k); simpl; [repeat constructor|].
  destruct (String.eqb (stp_Protocol parameters) TCPTLSProtoName) eqn:Hp; simpl;
    destruct (dial_outcome env (S k)); simpl;
    try destruct (snd (exchange_outcome env (S k))); simpl;
    repeat constructor; simpl; eauto; now apply String.eqb_eq.
Qed.

Lemma worker_wire_step a s s' :
  reachable nameserver parameters gen s ->
  Forall ok (events (wire s)) ->
  exec parameters gen a s = Some s' ->
  Forall ok (events (wire s')).
Proof.
  intros Hreach Hw He.
  pose proof (share_inv_reachable _ _ _ _ Hreach) as Hs.
  pose proof (join_inv_reachable _ _ _ _ Hreach) as Hj.
  destruct (si_heap _ _ _ _ Hs) as (q & Hh & Hhost & Hty & Hq).
  pose proof (si_ptr _ _ _ _ Hs) as Hptr.
  destruct a; simpl in He.
  - unfold step_worker in He. destruct (pc s) eqn:Hpc.
    + destruct (NewTicker_panics _); [|destruct (gen _)]; now injection He as <-.
    + injection He as <-. unfold store_QName. destruct (nth_error _ _); exact Hw.
    + destruct (keepAlive _) as [[|] counter]; injection He as <-; simpl; [|exact Hw].
      apply (worker_wire_log _ s); [|exact Hw].
      rewrite Hptr, Hh. simpl. exact Hhost.
    + destruct (ctxDone s); injection He as <-; simpl; [|exact Hw].
      apply (worker_wire_log _ s); [exact I|exact Hw].
    + destruct (WaitGroup_Add_panics _ _); now injection He as <-.
    + destruct (i <? _); now injection He as <-.
    + destruct (awaitGroup s =? 0); [|discriminate]. now injection He as <-.
    + destruct (ctxDone s), (tickReady s); try destruct c; try discriminate;
        injection He as <-; simpl; try exact Hw;
        apply (worker_wire_log _ s); auto; exact I.
    + discriminate.
  - unfold step_task in He.
    destruct (nth_error (tasks s) i) as [t|] eqn:Hi; [|discriminate].
    destruct (t_pc t) eqn:Ht; try discriminate.
    + pose proof (si_tasks _ _ _ _ Hs) as Hall. rewrite Forall_forall in Hall.
      destruct (Hall t (nth_error_In _ _ Hi)) as (Hp0 & _).
      rewrite Hp0, Hh in He. simpl in He. injection He as <-. simpl.
      rewrite SimpleQueryWithNoResponse_frame. simpl.
      apply Forall_app. split; [exact Hw|].
      apply worker_wire_query; auto.
      assert (Hp : pending t = true) by (unfold pending, exited; now rewrite Ht).
      destruct (pending_task_phase _ _ _ _ Hj Hi Hp) as [_ [Hpc|[j Hpc]]];
        rewrite Hpc in Hq; eauto.
    + now injection He as <-.
  - unfold step_task_panic in He.
    destruct (nth_error (tasks s) i) as [t|]; [|discriminate].
    destruct (t_pc t); try discriminate. now injection He as <-.
  - now injection He as <-.
  - destruct (pc s); try discriminate; now injection He as <-.
Qed.

(** X11.  Everything a worker puts on the wire concerns its own nameserver:
    it dials no other address and no other protocol than its own, logs under
    no other server name, asks type-A questions only, each for a name the
    generator produced, and, with any protocol, never exchanges over a
    connection wrapped by [utls.UClient]. *)
Theorem worker_talks_to_its_nameserver_only schedule s :
  run parameters gen schedule (entry nameserver) = Some s ->
  Forall (worker_event nameserver parameters gen) (events (wire s)).
Proof.
  intros Hrun.
  assert (H : reachable nameserver parameters gen s /\ Forall ok (events (wire s)));
    [|tauto].
  apply (run_invariant parameters gen
           (fun s => reachable nameserver parameters gen s /\ Forall ok (events (wire s))))
    with (schedule := schedule) (s := entry nameserver); auto.
  - intros a s1 s2 [Hr Hw] He. split.
    + eapply reachable_step; eauto.
    + eapply worker_wire_step; eauto.
  - split; [now exists []|constructor].
Qed.

End WorkerWire.

Lemma worker_talks_to_its_nameserver_only_witness :
  Forall (worker_event nameserver_example parameters_example generator_example)
         (events (wire (state_after parameters_example schedule_two_rounds))).
Proof.
  refine (worker_talks_to_its_nameserver_only nameserver_example parameters_example
            generator_example schedule_two_rounds _ _).
  vm_compute. reflexivity.
Defined.

(** ** The heartbeat in general *)

(** X12.  In every state a worker can reach, [keepAliveCounter] lies between
    0 and 256, and the heartbeat has been logged once in each past round
    whose number (from 0) is 256 modulo 257, and in no other round: the
    257th, the 514th, and so on. *)
Theorem heartbeat_rounds_are_256_mod_257 nameserver parameters gen schedule s :
  run parameters gen schedule (entry nameserver) = Some s ->
  0 <= keepAliveCounter s <= keepAliveReminder /\
  NoDup (heartbeats s) /\
  (forall r, In r (heartbeats s) -> Z.of_nat r mod 257 = 256 /\ (r <= round s)%nat) /\
  (forall r, (r < round s)%nat -> Z.of_nat r mod 257 = 256 -> In r (heartbeats s)).
Proof.
  intros Hrun.
  assert (Hreach : reachable nameserver parameters gen s) by (now exists schedule).
  destruct (beat_inv_reachable _ _ _ _ Hreach) as (k & Hc & Hh & Hk).
  assert (Hk' : k = round s \/ k = S (round s)) by (destruct (pc s); tauto).
  unfold keepAliveReminder in *. change (256 + 1) with 257 in Hc.
  pose proof (Z.mod_pos_bound (Z.of_nat k) 257 ltac:(lia)) as Hb.
  rewrite Hh. unfold heartbeat_rounds, keepAliveReminder. change (256 + 1) with 257.
  split; [lia|]. split; [apply NoDup_filter, seq_NoDup|]. split.
  - intros r Hin. apply filter_In in Hin. destruct Hin as [Hin Hm].
    apply in_seq in Hin. apply Z.eqb_eq in Hm. split; [exact Hm|lia].
  - intros r Hr Hm. apply filter_In. split; [apply in_seq; lia|].
    now apply Z.eqb_eq.
Qed.

Lemma heartbeat_rounds_are_256_mod_257_witness :
  0 <= keepAliveCounter (state_after parameters_example schedule_two_rounds)
    <= keepAliveReminder.
Proof.
  refine (proj1 (heartbeat_rounds_are_256_mod_257 nameserver_example parameters_example
                   generator_example schedule_two_rounds _ _)).
  vm_compute. reflexivity.
Defined.

(** ** The pace in the two regimes *)

Lemma ticks_until_tick t k :
  0 < period t -> ticks_until t (tick_time t k) = k.
Proof.
  intros Hd. unfold ticks_until, tick_time.
  replace (created t + k * period t - created t) with (k * period t) by lia.
  apply Z.div_mul. lia.
Qed.

(** X13.  While every round takes less than [Delay], the rounds start
    exactly on the ticks of the ticker: round K starts at [K * Delay] after
    the ticker was created, whatever the rounds' durations, and consecutive
    rounds start [Delay] apart. *)
Theorem short_rounds_start_on_the_ticks t execution K :
  0 < period t ->
  (forall k, 0 <= execution k < period t) ->
  round_start (timeline t execution K) = tick_time t (Z.of_nat K) /\
  gap t execution K = period t.
Proof.
  intros Hd He.
  assert (Hstart : forall n, round_start (timeline t execution n) = tick_time t (Z.of_nat n)).
  { induction n as [|n IH].
    - simpl. unfold tick_time. lia.
    - simpl timeline. unfold next_round. rewrite timeline_last_receive, IH. simpl.
      unfold receive, tick_buffered.
      rewrite ticks_until_tick by exact Hd.
      assert (Hq : ticks_until t (tick_time t (Z.of_nat n) + execution n) = Z.of_nat n).
      { unfold ticks_until, tick_time.
        replace (created t + Z.of_nat n * period t + execution n - created t)
          with (execution n + Z.of_nat n * period t) by lia.
        rewrite Z.div_add by lia. rewrite Z.div_small by (apply He). lia. }
      rewrite Hq, Z.ltb_irrefl. f_equal. lia. }
  split; [apply Hstart|].
  unfold gap. rewrite !Hstart. unfold tick_time. lia.
Qed.

Lemma short_rounds_start_on_the_ticks_witness :
  round_start (timeline ticker_example (fun _ => 4 * Millisecond) 3) = 30 * Millisecond.
Proof.
  refine (proj1 (short_rounds_start_on_the_ticks ticker_example
                   (fun _ => 4 * Millisecond) 3 _ _)).
  - reflexivity.
  - intros k. unfold Millisecond. simpl. lia.
Defined.

(** X14.  When a round takes [Delay] or longer, a tick is already waiting
    when the round ends and the next round starts at once: the ticker adds
    no pause, and the gap between the starts is the execution time. *)
Theorem long_rounds_are_not_paced t execution K :
  0 < period t ->
  period t <= execution K ->
  gap t execution K = execution K.
Proof.
  intros Hd He. unfold gap. simpl. unfold next_round.
  rewrite timeline_last_receive. simpl.
  set (s := round_start (timeline t execution K)).
  unfold receive, tick_buffered, ticks_until.
  assert (Hlt : (s - created t) / period t < (s + execution K - created t) / period t).
  { replace (s + execution K - created t)
      with ((s - created t + (execution K - period t)) + 1 * period t) by lia.
    rewrite Z.div_add by lia.
    assert ((s - created t) / period t <= (s - created t + (execution K - period t)) / period t)
      by (apply Z.div_le_mono; lia).
    lia. }
  apply Z.ltb_lt in Hlt. rewrite Hlt. lia.
Qed.

Lemma long_rounds_are_not_paced_witness :
  gap ticker_example (fun _ => 25 * Millisecond) 2 = 25 * Millisecond.
Proof.
  refine (long_rounds_are_not_paced ticker_example (fun _ => 25 * Millisecond) 2 _ _).
  - reflexivity.
  - unfold Millisecond. simpl. lia.
Defined.

(** ** The entry point and its workers *)

Lemma Start_spawned lookup config nss :
  lookup (RootDomain config) = (nss, None) ->
  Start lookup config =
    (Returned None,
     map (fun ns =>
            {| go_nameserver := JoinHostPort (Host ns) (Itoa (port_of (Protocol config)));
               go_parameters :=
                 {| stp_Delay := Delay config;
                    stp_ParallelQueries := ParallelQueries config;
                    stp_Protocol := Protocol config;
                    stp_SeedDomains := SeedDomains config |} |}) nss,
     [ LogIgniting config;
       LogResolved (RootDomain config)
         (map (fun ns => JoinHostPort (Host ns) (Itoa (port_of (Protocol config)))) nss) ]).
Proof.
  intros Hl. unfold Start. rewrite (getNameservers_ok _ _ _ _ Hl). simpl.
  now rewrite map_map.
Qed.

(** X15.  [Start] checks nothing but the lookup.  When the lookup succeeds
    it returns nil and spawns its workers even if the configuration dooms
    them: with a [Delay] that is not positive every spawned worker ends at
    its entry without a query and its goroutine logs no error; with a
    positive [Delay] and seeds the generator refuses, every worker's first
    step is to return the bootstrap error, which its goroutine logs under
    the worker's nameserver. *)
Theorem Start_succeeds_whatever_the_workers_do lookup config nss gen g :
  lookup (RootDomain config) = (nss, None) ->
  In g (snd (fst (Start lookup config))) ->
  fst (fst (Start lookup config)) = Returned None /\
  (Delay config <= 0 ->
     forall schedule s,
       run (go_parameters g) gen schedule (goroutine_entry g) = Some s ->
       tasks s = [] /\ wire s = wire0 /\
       (forall o, pc s = Exited o -> goroutine_epilogue g o = [])) /\
  (0 < Delay config ->
     forall err, gen (SeedDomains config) = inr err ->
       forall c,
         step_worker (go_parameters g) gen c (goroutine_entry g) =
           Some (set_pc (Exited (Returned (Some (bootstrap_error err)))) (goroutine_entry g)) /\
         goroutine_epilogue g (Returned (Some (bootstrap_error err))) =
           [LogFinishedWithError (go_nameserver g) (bootstrap_error err)]).
Proof.
  intros Hl. rewrite (Start_spawned _ _ _ Hl). simpl. intros Hin.
  apply in_map_iff in Hin. destruct Hin as (ns & <- & _). simpl.
  split; [reflexivity|]. split.
  - intros Hd schedule s Hrun.
    set (p := {| stp_Delay := Delay config;
                 stp_ParallelQueries := ParallelQueries config;
                 stp_Protocol := Protocol config;
                 stp_SeedDomains := SeedDomains config |}) in *.
    destruct (stillborn_reachable _ p gen (Hd : stp_Delay p <= 0) s
                (ex_intro _ schedule Hrun))
      as (Hpc & Ht & Hw & _).
    repeat split; auto.
    intros o Ho. destruct Hpc as [Hpc|Hpc]; rewrite Hpc in Ho; [discriminate|].
    injection Ho as <-. reflexivity.
  - intros Hd err Hg c. split; [|reflexivity].
    unfold step_worker, goroutine_entry, NewTicker_panics. simpl.
    replace (Delay config <=? 0) with false by (symmetry; apply Z.leb_gt; exact Hd).
    now rewrite Hg.
Qed.

Lemma Start_succeeds_whatever_the_workers_do_witness :
  fst (fst (Start lookup_example
              {| RootDomain := "example.com"; Protocol := UDPProtoName;
                 SeedDomains := []; Delay := 0; ParallelQueries := 4 |})) =
    Returned None.
Proof.
  refine (proj1 (Start_succeeds_whatever_the_workers_do lookup_example
                   {| RootDomain := "example.com"; Protocol := UDPProtoName;
                      SeedDomains := []; Delay := 0; ParallelQueries := 4 |}
                   _ generator_example
                   {| go_nameserver := "ns1.example.com.:53";
                      go_parameters :=
                        {| stp_Delay := 0; stp_ParallelQueries := 4;
                           stp_Protocol := UDPProtoName; stp_SeedDomains := [] |} |}
                   eq_refl _)).
  vm_compute. auto.
Defined.

(** X16.  The protocol is not validated either.  Any protocol string other
    than exactly tcp-tls is resolved on port 53 and handed as it is to the
    workers, whose DNS client then takes it for its network and has no TLS
    configuration. *)
Theorem unknown_protocol_is_used_as_given lookup config nss g :
  lookup (RootDomain config) = (nss, None) ->
  Protocol config <> TCPTLSProtoName ->
  In g (snd (fst (Start lookup config))) ->
  map go_nameserver (snd (fst (Start lookup config))) =
    map (fun ns => JoinHostPort (Host ns) "53") nss /\
  Net (sharedDNSClient (go_parameters g)) = Protocol config /\
  ClientTLSConfig (sharedDNSClient (go_parameters g)) = None.
Proof.
  intros Hl Hp. rewrite (Start_spawned _ _ _ Hl). simpl. intros Hin.
  apply in_map_iff in Hin. destruct Hin as (ns & <- & _).
  unfold port_of, sharedDNSClient, newDefaultDNSClient. simpl.
  replace (String.eqb (Protocol config) TCPTLSProtoName) with false
    by (symmetry; now apply String.eqb_neq).
  rewrite map_map. simpl. auto.
Qed.

Lemma unknown_protocol_is_used_as_given_witness :
  map go_nameserver
      (snd (fst (Start lookup_example
                   {| RootDomain := "example.com"; Protocol := "TCP-TLS";
                      SeedDomains := ["a.example.com"]; Delay := 10 * Millisecond;
                      ParallelQueries := 4 |}))) =
    ["ns1.example.com.:53"; "ns2.example.com.:53"].
Proof.
  refine (proj1 (unknown_protocol_is_used_as_given lookup_example
                   {| RootDomain := "example.com"; Protocol := "TCP-TLS";
                      SeedDomains := ["a.example.com"]; Delay := 10 * Millisecond;
                      ParallelQueries := 4 |}
                   _
                   {| go_nameserver := "ns1.example.com.:53";
                      go_parameters :=
                        {| stp_Delay := 10 * Millisecond; stp_ParallelQueries := 4;
                           stp_Protocol := "TCP-TLS";
                           stp_SeedDomains := ["a.example.com"] |} |}
                   eq_refl _ _)).
  - discriminate.
  - vm_compute. auto.
Defined.

(** ** Returning, and not returning *)

(** X17.  [ExecuteStressTest] leaves no query goroutine behind: whenever the
    worker has returned, by cancellation, by an error or by a recovered
    panic, every goroutine it spawned has finished and the wait group is
    back at zero. *)
Theorem worker_returns_with_no_goroutine_left nameserver parameters gen schedule s o :
  run parameters gen schedule (entry nameserver) = Some s ->
  pc s = Exited o ->
  Forall (fun t => t_pc t = TaskExited) (tasks s) /\ awaitGroup s = 0 /\ outstanding s = 0.
Proof.
  intros Hrun Hpc.
  assert (Hreach : reachable nameserver parameters gen s) by (now exists schedule).
  pose proof (ji_phase _ _ (join_inv_reachable _ _ _ _ Hreach)) as H.
  unfold phase_inv in H. rewrite Hpc in H. destruct H as (Hw & Hu & _).
  split; [now apply unjoined_zero_exited|]. split; [exact Hw|].
  pose proof (count_le in_flight pending (tasks s) in_flight_pending) as Hle.
  pose proof (count_nonneg in_flight (tasks s)) as Hge.
  unfold outstanding. unfold unjoined in Hu. lia.
Qed.

Lemma worker_returns_with_no_goroutine_left_witness :
  outstanding (state_after parameters_example schedule_cancelled_and_drained) = 0.
Proof.
  refine (proj2 (proj2 (worker_returns_with_no_goroutine_left nameserver_example
                          parameters_example generator_example
                          schedule_cancelled_and_drained _ (Returned None) _ _))).
  - vm_compute. reflexivity.
  - vm_compute. reflexivity.
Defined.

Lemma recovered_task_is_frozen parameters gen i t a s s' :
  nth_error (tasks s) i = Some t -> recovered t = true ->
  exec parameters gen a s = Some s' ->
  nth_error (tasks s') i = Some t.
Proof.
  intros Hu Hru He.
  destruct a; simpl in He.
  - unfold step_worker in He. destruct (pc s) eqn:Hpc.
    + destruct (NewTicker_panics _); [|destruct (gen _)]; now injection He as <-.
    + injection He as <-. unfold store_QName.
      destruct (nth_error (heap s) _); exact Hu.
    + destruct (keepAlive _) as [[|] counter]; now injection He as <-.
    + destruct (ctxDone s); now injection He as <-.
    + destruct (WaitGroup_Add_panics _ _); now injection He as <-.
    + destruct (i0 <? _); injection He as <-; simpl; [|exact Hu].
      rewrite nth_error_app1; [exact Hu|]. apply nth_error_Some. congruence.
    + destruct (awaitGroup s =? 0); [|discriminate]. now injection He as <-.
    + destruct (ctxDone s), (tickReady s); try destruct c; try discriminate;
        now injection He as <-.
    + discriminate.
  - unfold step_task in He.
    destruct (nth_error (tasks s) i0) as [v|] eqn:Hj; [|discriminate].
    assert (Hne : i0 <> i).
    { intros ->. rewrite Hu in Hj. injection Hj as <-.
      unfold recovered in Hru. destruct (t_pc t); discriminate. }
    apply Nat.eqb_neq in Hne.
    destruct (t_pc v); try discriminate.
    + destruct (nth_error (heap s) _); [|discriminate]. injection He as <-. simpl.
      now rewrite nth_error_update, Hne.
    + injection He as <-. simpl. now rewrite nth_error_update, Hne.
  - unfold step_task_panic in He.
    destruct (nth_error (tasks s) i0) as [v|] eqn:Hj; [|discriminate].
    assert (Hne : i0 <> i).
    { intros ->. rewrite Hu in Hj. injection Hj as <-.
      unfold recovered in Hru. destruct (t_pc t); discriminate. }
    apply Nat.eqb_neq in Hne.
    destruct (t_pc v); try discriminate.
    injection He as <-. simpl. now rewrite nth_error_update, Hne.
  - now injection He as <-.
  - destruct (pc s); try discriminate; now injection He as <-.
Qed.

(** X18.  A query goroutine that crashes hangs its worker.  The recovery
    boundary of line 134 catches the panic, but [awaitGroup.Done()] on line
    136 is then never called: from that state on, under any interleaving,
    the worker stays in the same round, fanning out or blocked in
    [awaitGroup.Wait()], and never returns, cancelled or not. *)
Theorem crashed_query_hangs_the_worker
    nameserver parameters gen schedule1 schedule2 s1 s2 i t :
  run parameters gen schedule1 (entry nameserver) = Some s1 ->
  nth_error (tasks s1) i = Some t -> recovered t = true ->
  run parameters gen schedule2 s1 = Some s2 ->
  round s2 = round s1 /\
  (pc s2 = AtWait \/ exists j, pc s2 = AtSpawn j) /\
  (forall c, pc s2 = AtWait -> step_worker parameters gen c s2 = None).
Proof.
  intros Hrun1 Hi Hr Hrun2.
  assert (Hreach1 : reachable nameserver parameters gen s1) by (now exists schedule1).
  assert (Hreach2 : reachable nameserver parameters gen s2)
    by (eapply reachable_run; eauto).
  assert (Hp : forall u, recovered u = true -> pending u = true).
  { intros u. unfold recovered, pending, exited. destruct (t_pc u); auto. }
  destruct (pending_task_phase _ _ _ _ (join_inv_reachable _ _ _ _ Hreach1) Hi (Hp _ Hr))
    as [Hround1 _].
  assert (Hi' : nth_error (tasks s2) i = Some t).
  { apply (run_invariant parameters gen (fun s => nth_error (tasks s) i = Some t))
      with (schedule := schedule2) (s := s1); auto.
    intros a s s' Hs He. eapply recovered_task_is_frozen; eauto. }
  pose proof (join_inv_reachable _ _ _ _ Hreach2) as Hj2.
  destruct (pending_task_phase _ _ _ _ Hj2 Hi' (Hp _ Hr)) as [Hround2 Hphase].
  split; [congruence|]. split; [exact Hphase|].
  intros c Hpc. unfold step_worker. rewrite Hpc.
  pose proof (ji_phase _ _ Hj2) as Hph. unfold phase_inv in Hph. rewrite Hpc in Hph.
  destruct Hph as (_ & _ & Hw).
  pose proof (count_member pending _ _ _ Hi' (Hp _ Hr)) as Hc. fold (unjoined s2) in Hc.
  replace (awaitGroup s2 =? 0) with false; [reflexivity|].
  symmetry. apply Z.eqb_neq. lia.
Qed.

Lemma crashed_query_hangs_the_worker_witness :
  round (state_after parameters_example (app schedule_crash schedule_after_crash)) =
    round (state_after parameters_example schedule_crash) /\
  step_worker parameters_example generator_example PickDone
    (state_after parameters_example (app schedule_crash schedule_after_crash)) = None.
Proof.
  assert (Hrun1 : run parameters_example generator_example schedule_crash
                    (entry nameserver_example) =
                  Some (state_after parameters_example schedule_crash))
    by (vm_compute; reflexivity).
  assert (Hrun2 : run parameters_example generator_example schedule_after_crash
                    (state_after parameters_example schedule_crash) =
                  Some (state_after parameters_example
                          (app schedule_crash schedule_after_crash)))
    by (vm_compute; reflexivity).
  destruct (crashed_query_hangs_the_worker nameserver_example parameters_example
              generator_example _ _ _ _ 8%nat
              {| t_round := 2; t_parameters := 0;
                 t_pc := TaskRecovered "invalid memory address or nil pointer dereference";
                 t_seen := None |}
              Hrun1 ltac:(vm_compute; reflexivity) eq_refl Hrun2)
    as (Hr & _ & Hw).
  split; [exact Hr|]. apply Hw. vm_compute. reflexivity.
Defined.

(** C7.  The example worker, in its third round, when the first query
    goroutine of the round panics (the deferred handler of line 134 recovers
    it), then the context is cancelled and the three other queries run to
    their end.  The signal has fired and no query is outstanding, yet the
    worker does not reach its terminal state: [awaitGroup.Done()] of line 136
    was skipped by the panic, the counter stays at 1, and under every further
    interleaving the worker remains blocked in [awaitGroup.Wait()], so no
    schedule leads it to its return. *)
Theorem cancelled_worker_hangs_after_a_crash :
  run parameters_example generator_example (app schedule_crash schedule_after_crash)
      (entry nameserver_example) = Some state_hung /\
  ctxDone state_hung = true /\
  pc state_hung = AtWait /\
  outstanding state_hung = 0 /\
  awaitGroup state_hung = 1 /\
  (forall schedule s,
     run parameters_example generator_example schedule state_hung = Some s ->
     (pc s = AtWait \/ exists j, pc s = AtSpawn j) /\ round s = round state_hung) /\
  ~ can_exit parameters_example generator_example state_hung.
Proof.
  assert (Hrun : run parameters_example generator_example
                     (app schedule_crash schedule_after_crash)
                     (entry nameserver_example) = Some state_hung)
    by (vm_compute; reflexivity).
  assert (Hreach : reachable nameserver_example parameters_example generator_example
                     state_hung) by (eexists; exact Hrun).
  set (t := {| t_round := 2; t_parameters := 0;
               t_pc := TaskRecovered "invalid memory address or nil pointer dereference";
               t_seen := None |}).
  assert (Hi : nth_error (tasks state_hung) 8 = Some t) by (vm_compute; reflexivity).
  assert (Hp : pending t = true) by reflexivity.
  assert (Hstuck : forall schedule s,
            run parameters_example generator_example schedule state_hung = Some s ->
            (pc s = AtWait \/ exists j, pc s = AtSpawn j) /\ round s = round state_hung).
  { intros schedule s Hs.
    assert (Hi' : nth_error (tasks s) 8 = Some t).
    { apply (run_invariant parameters_example generator_example
               (fun s => nth_error (tasks s) 8 = Some t))
        with (schedule := schedule) (s := state_hung); auto.
      intros a s1 s2 H1 He. eapply recovered_task_is_frozen; eauto. }
    assert (Hreach' : reachable nameserver_example parameters_example generator_example s)
      by (eapply reachable_run; eauto).
    destruct (pending_task_phase _ _ _ _ (join_inv_reachable _ _ _ _ Hreach') Hi' Hp)
      as [Hround Hphase].
    split; [exact Hphase|]. rewrite <- Hround. vm_compute. reflexivity. }
  split; [exact Hrun|].
  split; [vm_compute; reflexivity|].
  split; [vm_compute; reflexivity|].
  split; [vm_compute; reflexivity|].
  split; [vm_compute; reflexivity|].
  split; [exact Hstuck|].
  intros (schedule & s & o & Hs & Hpc).
  destruct (Hstuck schedule s Hs) as [[H|[j H]] _]; rewrite H in Hpc; discriminate.
Qed.
